(** * The voice reminder bot: [handle_audio_message] and [send_reminder]

    A shallow embedding of [app.py].  The webhook handler turns the two-line
    answer of the language model into a row of the [reminders] table and a
    one-shot scheduler job; the job's callback pushes the reminder to the user
    and marks the row as sent.

    Python strings are sequences of Unicode code points; the database, the
    scheduler, the temporary files and the calls made to the messaging and
    model services are the components of an explicit [World], threaded
    through a state-and-exception monad.  The collaborators are modelled
    where they answer: what they answer during a request is an input of the
    handler, and the exception the program can run into on its own, the
    [ValueError] of [strptime], is the one that is raised here. *)

From Stdlib Require Import String Ascii ZArith NArith Lia Bool List.
Import ListNotations.

Set Implicit Arguments.
Open Scope Z_scope.

(** ** Strings *)

(** A character is its code point, a [str] the sequence of them. *)
Definition char := N.
Definition str := list char.

(** String literals of the source, written as Rocq strings. *)
Definition lit (s : string) : str :=
  List.map N_of_ascii (list_ascii_of_string s).

Definition newline : char := 10%N.

Definition char_eqb (a b : char) : bool := N.eqb a b.

Fixpoint str_eqb (a b : str) : bool :=
  match a, b with
  | [], [] => true
  | x :: a', y :: b' => char_eqb x y && str_eqb a' b'
  | _, _ => false
  end.

(** [str.isspace] on one character: the code points CPython's
    [Py_UNICODE_ISSPACE] accepts.  [str.strip()] and the regular expression
    class [\s] both use it. *)
Definition whitespace : list char :=
  [ 9; 10; 11; 12; 13; 28; 29; 30; 31; 32; 133; 160; 5760;
    8192; 8193; 8194; 8195; 8196; 8197; 8198; 8199; 8200; 8201; 8202;
    8232; 8233; 8239; 8287; 12288 ]%N.

Definition isspace (c : char) : bool := existsb (char_eqb c) whitespace.

(** [s.lstrip()], [s.rstrip()] and [s.strip()] with no argument. *)
Fixpoint lstrip (s : str) : str :=
  match s with
  | [] => []
  | c :: s' => if isspace c then lstrip s' else s
  end.

Definition rstrip (s : str) : str := rev (lstrip (rev s)).

Definition strip (s : str) : str := rstrip (lstrip s).

(** [s.split(sep)] for a one-character separator: every occurrence of the
    separator cuts, empty pieces are kept, and the result is never empty. *)
Fixpoint split (sep : char) (s : str) : list str :=
  match s with
  | [] => [[]]
  | c :: s' =>
      if char_eqb c sep then [] :: split sep s'
      else match split sep s' with
           | [] => [[c]]
           | piece :: pieces => (c :: piece) :: pieces
           end
  end.

(** [sep.join(pieces)], the inverse of [split]. *)
Fixpoint join (sep : char) (pieces : list str) : str :=
  match pieces with
  | [] => []
  | [p] => p
  | p :: ps => p ++ sep :: join sep ps
  end.

(** ** Dates and times *)

(** A naive [datetime.datetime]: no time zone. *)
Record datetime := mkDatetime {
  year : Z; month : Z; day : Z;
  hour : Z; minute : Z; second : Z; microsecond : Z
}.

Definition datetime_eqb (a b : datetime) : bool :=
  (year a =? year b) && (month a =? month b) && (day a =? day b) &&
  (hour a =? hour b) && (minute a =? minute b) && (second a =? second b) &&
  (microsecond a =? microsecond b).

Definition is_leap (y : Z) : bool :=
  (y mod 4 =? 0) && (negb (y mod 100 =? 0) || (y mod 400 =? 0)).

Definition days_in_month (y m : Z) : Z :=
  if m =? 2 then (if is_leap y then 29 else 28)
  else if (m =? 4) || (m =? 6) || (m =? 9) || (m =? 11) then 30
  else 31.

(** The constructor [datetime(year, month, day, hour, minute, second,
    microsecond)]: it raises [ValueError] (here [None]) on a field that is
    out of range. *)
Definition make_datetime (y m d H M S us : Z) : option datetime :=
  if (1 <=? y) && (y <=? 9999) && (1 <=? m) && (m <=? 12) &&
     (1 <=? d) && (d <=? days_in_month y m) &&
     (0 <=? H) && (H <=? 23) && (0 <=? M) && (M <=? 59) &&
     (0 <=? S) && (S <=? 59) && (0 <=? us) && (us <=? 999999)
  then Some (mkDatetime y m d H M S us)
  else None.

(** *** Regular expressions, as the backtracking matcher runs them

    A pattern applied at the start of a subject gives the list of its
    matches in the order the matcher tries them, each with the value it
    captures and the rest of the subject.  The first element of the list for
    the whole pattern is what [re.match] returns. *)
Definition Re (A : Type) : Type := str -> list (A * str).

Definition re_ret {A} (a : A) : Re A := fun s => [(a, s)].

Definition re_bind {A B} (p : Re A) (k : A -> Re B) : Re B :=
  fun s => flat_map (fun '(a, rest) => k a rest) (p s).

Definition re_alt {A} (p q : Re A) : Re A := fun s => p s ++ q s.

Declare Scope re_scope.
Delimit Scope re_scope with re.
Notation "x <~ p ;; k" := (re_bind p (fun x => k))
  (at level 61, p at next level, right associativity) : re_scope.
Notation "p <|> q" := (re_alt p q) (at level 65, right associativity) : re_scope.

(** A literal character. *)
Definition re_char (c : char) : Re unit :=
  fun s => match s with
           | x :: rest => if char_eqb x c then [(tt, rest)] else []
           | [] => []
           end.

(** The class [[lo-hi]] of ASCII digits, [lo] and [hi] given as numbers;
    the value captured is the digit's. *)
Definition re_range (lo hi : Z) : Re Z :=
  fun s => match s with
           | x :: rest =>
               let v := Z.of_N x - 48 in
               if (lo <=? v) && (v <=? hi) then [(v, rest)] else []
           | [] => []
           end.

(** The code points of the zeros of the decimal digit systems of Unicode
    14.0 (category Nd); the nine code points after each are its digits one to
    nine.  [\d] matches all of them and [int] reads them. *)
Definition decimal_zeros : list char :=
  [ 48; 1632; 1776; 1984; 2406; 2534; 2662; 2790; 2918; 3046; 3174; 3302;
    3430; 3558; 3664; 3792; 3872; 4160; 4240; 6112; 6160; 6470; 6608; 6784;
    6800; 6992; 7088; 7232; 7248; 42528; 43216; 43264; 43472; 43504; 43600;
    44016; 65296; 66720; 68912; 69734; 69872; 69942; 70096; 70384; 70736;
    70864; 71248; 71360; 71472; 71904; 72016; 72784; 73040; 73120; 92768;
    92864; 93008; 120782; 120792; 120802; 120812; 120822; 123200; 123632;
    125264; 130032 ]%N.

Definition decimal (c : char) : option Z :=
  match find (fun z => (z <=? c)%N && (c <? z + 10)%N) decimal_zeros with
  | Some z => Some (Z.of_N (c - z))
  | None => None
  end.

(** [\d]. *)
Definition re_digit : Re Z :=
  fun s => match s with
           | x :: rest => match decimal x with
                          | Some v => [(v, rest)]
                          | None => []
                          end
           | [] => []
           end.

(** [\s+], greedy: the longest run of white space first, then the shorter
    ones the matcher backtracks to. *)
Fixpoint re_spaces (s : str) : list (unit * str) :=
  match s with
  | x :: rest => if isspace x then re_spaces rest ++ [(tt, rest)] else []
  | [] => []
  end.

Local Open Scope re_scope.

(** The directives of [_strptime.TimeRE], with the number [int] reads from
    the text of the group. *)
(** [%H]: [(?P<H>2[0-3]|[0-1]\d|\d)] *)
Definition re_H : Re Z :=
  (_ <~ re_char 50%N ;; d <~ re_range 0 3 ;; re_ret (20 + d))
  <|> (a <~ re_range 0 1 ;; d <~ re_digit ;; re_ret (10 * a + d))
  <|> re_digit.

(** [%M]: [(?P<M>[0-5]\d|\d)] *)
Definition re_M : Re Z :=
  (a <~ re_range 0 5 ;; d <~ re_digit ;; re_ret (10 * a + d))
  <|> re_digit.

(** [%Y]: [(?P<Y>\d\d\d\d)] *)
Definition re_Y : Re Z :=
  a <~ re_digit ;; b <~ re_digit ;; c <~ re_digit ;; d <~ re_digit ;;
  re_ret (1000 * a + 100 * b + 10 * c + d).

(** [%m]: [(?P<m>1[0-2]|0[1-9]|[1-9])] *)
Definition re_m : Re Z :=
  (_ <~ re_char 49%N ;; d <~ re_range 0 2 ;; re_ret (10 + d))
  <|> (_ <~ re_char 48%N ;; d <~ re_range 1 9 ;; re_ret d)
  <|> re_range 1 9.

(** [%d]: [(?P<d>3[0-1]|[1-2]\d|0[1-9]|[1-9]| [1-9])] *)
Definition re_d : Re Z :=
  (_ <~ re_char 51%N ;; d <~ re_range 0 1 ;; re_ret (30 + d))
  <|> (a <~ re_range 1 2 ;; d <~ re_digit ;; re_ret (10 * a + d))
  <|> (_ <~ re_char 48%N ;; d <~ re_range 1 9 ;; re_ret d)
  <|> re_range 1 9
  <|> (_ <~ re_char 32%N ;; d <~ re_range 1 9 ;; re_ret d).

(** The pattern [_strptime] compiles from the format ["%H:%M %Y-%m-%d"]:
    the directives in sequence, [:] and [-] literally, and the blank of the
    format as [\s+]. *)
Definition format_regex : Re (Z * Z * Z * Z * Z) :=
  H <~ re_H ;; _ <~ re_char 58%N ;; M <~ re_M ;; _ <~ re_spaces ;;
  Y <~ re_Y ;; _ <~ re_char 45%N ;; m <~ re_m ;; _ <~ re_char 45%N ;;
  d <~ re_d ;; re_ret (H, M, Y, m, d).

Local Close Scope re_scope.

(** The first match of a pattern: what [re.match] finds. *)
Definition first_match {A} (p : Re A) (s : str) (a : A) (rest : str) : Prop :=
  exists others, p s = (a, rest) :: others.

(** [datetime.strptime(s, "%H:%M %Y-%m-%d")].  [None] stands for the
    [ValueError] it raises: the text does not match the format, text is left
    over after the match, or the fields are not a date. *)
Definition strptime (s : str) : option datetime :=
  match format_regex s with
  | [] => None
  | ((H, M, Y, m, d), rest) :: _ =>
      match rest with
      | [] => make_datetime Y m d H M 0 0
      | _ :: _ => None
      end
  end.

(** The ASCII digit of a number below ten, and numbers zero-padded to two
    and to four digits. *)
Definition digit_char (n : Z) : char := (48 + Z.to_N n)%N.

Definition pad2 (n : Z) : str := [digit_char (n / 10 mod 10); digit_char (n mod 10)].

Definition pad4 (n : Z) : str :=
  [digit_char (n / 1000 mod 10); digit_char (n / 100 mod 10);
   digit_char (n / 10 mod 10); digit_char (n mod 10)].

(** The year as [%Y] prints it (CPython 3.11 on the GNU C library): in
    decimal and without leading zeros, so with fewer than four digits below
    the year 1000.  The year of a [datetime] is between 1 and 9999. *)
Definition year_text (y : Z) : str :=
  if y <? 10 then [digit_char y]
  else if y <? 100 then [digit_char (y / 10); digit_char (y mod 10)]
  else if y <? 1000 then
    [digit_char (y / 100); digit_char (y / 10 mod 10); digit_char (y mod 10)]
  else pad4 y.

(** [dt.strftime("%H:%M %Y-%m-%d")]: the hour, the minute, the month and the
    day are padded to two digits, the year is not padded. *)
Definition strftime (dt : datetime) : str :=
  pad2 (hour dt) ++ lit ":" ++ pad2 (minute dt) ++ lit " " ++
  year_text (year dt) ++ lit "-" ++ pad2 (month dt) ++ lit "-" ++ pad2 (day dt).

(** The time written as [HH:MM YYYY-MM-DD], in the words of the
    specification: two digits each for the hour, the minute, the month and
    the day, and four for the year. *)
Definition HH_MM_YYYY_MM_DD (dt : datetime) : str :=
  pad2 (hour dt) ++ lit ":" ++ pad2 (minute dt) ++ lit " " ++
  pad4 (year dt) ++ lit "-" ++ pad2 (month dt) ++ lit "-" ++ pad2 (day dt).

(** ** The world the program runs in *)

(** A row of the table [reminders] (class [Reminder]). *)
Record Reminder := mkReminder {
  id : Z;
  user_id : str;
  event_time : datetime;
  event_content : str;
  is_sent : bool
}.

(** A job of the scheduler.  Every job of the program has the trigger
    ['date'] and the callback [send_reminder]; what varies is the date and
    the arguments. *)
Record Job := mkJob {
  run_date : datetime;
  args : str * datetime * str
}.

(** The inbound event: [event.source.user_id], [event.message.id] and
    [event.reply_token]. *)
Record MessageEvent := mkMessageEvent {
  source_user_id : str;
  message_id : str;
  reply_token : str
}.

(** What the collaborators answer during one request: the chunks of the
    audio content, the name the temporary file gets, the text of the
    transcription and the content of the model's completion. *)
Record Answers := mkAnswers {
  iter_content : list (list N);
  temp_name : str;
  transcription_text : str;
  completion_content : str
}.

(** The calls the program makes to its collaborators, in the order it makes
    them. *)
Inductive Call :=
| GetMessageContent (message : str)
| CreateTemp (path : str)
| Transcribe (path : str) (model : str)
| ChatCompletion (system prompt : str) (model : str) (max_tokens : Z)
| InsertCommit (row : Reminder)
| AddJob (job : Job)
| ReplyMessage (token text : str)
| PushMessage (to text : str)
| QueryFirst (user : str) (time : datetime) (content : str)
| UpdateCommit (row_id : Z)
| Unlink (path : str).

Record World := mkWorld {
  reminders : list Reminder;          (* the table, in rowid order *)
  jobs : list Job;                    (* the scheduler's pending jobs *)
  files : list (str * list N);        (* temporary files: path and bytes *)
  trace : list Call                   (* calls made so far, oldest first *)
}.

Definition empty_world : World := mkWorld [] [] [] [].

(** ** State and exceptions *)

Inductive Exn := ValueError.

Inductive Outcome (A : Type) :=
| Returned (a : A) (w : World)
| Raised (e : Exn) (w : World).
Arguments Raised {A} e w.

Definition M (A : Type) : Type := World -> Outcome A.

Definition ret {A} (a : A) : M A := fun w => Returned a w.

Definition bind {A B} (c : M A) (k : A -> M B) : M B :=
  fun w => match c w with
           | Returned a w' => k a w'
           | Raised e w' => Raised e w'
           end.

Definition raise {A} (e : Exn) : M A := fun w => Raised e w.

Declare Scope prog_scope.
Delimit Scope prog_scope with prog.
Notation "x <- c ;; k" := (bind c (fun x => k))
  (at level 61, c at next level, right associativity) : prog_scope.
Notation "c ;; k" := (bind c (fun _ => k))
  (at level 61, right associativity) : prog_scope.

(** The world an outcome leaves behind, returned or raised. *)
Definition world_of {A} (o : Outcome A) : World :=
  match o with
  | Returned _ w => w
  | Raised _ w => w
  end.

Definition returned {A} (o : Outcome A) : bool :=
  match o with
  | Returned _ _ => true
  | Raised _ _ => false
  end.

Definition log (c : Call) : M unit :=
  fun w => Returned tt (mkWorld (reminders w) (jobs w) (files w) (trace w ++ [c])).

Definition set_reminders (rs : list Reminder) : M unit :=
  fun w => Returned tt (mkWorld rs (jobs w) (files w) (trace w)).

Definition set_jobs (js : list Job) : M unit :=
  fun w => Returned tt (mkWorld (reminders w) js (files w) (trace w)).

Definition set_files (fs : list (str * list N)) : M unit :=
  fun w => Returned tt (mkWorld (reminders w) (jobs w) fs (trace w)).

Definition get_reminders : M (list Reminder) := fun w => Returned (reminders w) w.
Definition get_jobs : M (list Job) := fun w => Returned (jobs w) w.
Definition get_files : M (list (str * list N)) := fun w => Returned (files w) w.

Local Open Scope prog_scope.

(** ** The collaborators *)

(** [line_bot_api.get_message_content(message_id)] and the chunks of
    [iter_content()]. *)
Definition get_message_content (ans : Answers) (message : str) : M (list (list N)) :=
  log (GetMessageContent message) ;; ret (iter_content ans).

(** The [with tempfile.NamedTemporaryFile(delete=False, ...)] block: the
    file is created, the chunks are written to it one after the other, and
    it stays on disk when the block ends. *)
Definition named_temporary_file (ans : Answers) (chunks : list (list N)) : M str :=
  let path := temp_name ans in
  log (CreateTemp path) ;;
  fs <- get_files ;;
  set_files (fs ++ [(path, concat chunks)]) ;;
  ret path.

(** [groq_client.audio.transcriptions.create(...)] and its [.text]. *)
Definition transcriptions_create (ans : Answers) (path : str) : M str :=
  log (Transcribe path (lit "whisper-large-v3")) ;; ret (transcription_text ans).

(** [groq_client.chat.completions.create(...)] and
    [.choices[0].message.content]. *)
Definition chat_completions_create (ans : Answers) (prompt : str) : M str :=
  log (ChatCompletion
         (lit "You are a helpful assistant that extracts event information.")
         prompt (lit "llama3-8b-8192") 200) ;;
  ret (completion_content ans).

(** The rowid SQLite gives a new row: one more than the largest in use. *)
Definition next_id (rows : list Reminder) : Z :=
  1 + fold_right Z.max 0 (map id rows).

(** [session.add(Reminder(user_id=..., event_time=..., event_content=...))]
    and [session.commit()]: [is_sent] takes its default. *)
Definition session_add_commit (user : str) (time : datetime) (content : str) : M unit :=
  rows <- get_reminders ;;
  let row := mkReminder (next_id rows) user time content false in
  log (InsertCommit row) ;;
  set_reminders (rows ++ [row]).

(** [scheduler.add_job(send_reminder, 'date', run_date=..., args=[...])]. *)
Definition add_job (when : datetime) (a : str * datetime * str) : M unit :=
  js <- get_jobs ;;
  log (AddJob (mkJob when a)) ;;
  set_jobs (js ++ [mkJob when a]).

Definition reply_message (token text : str) : M unit := log (ReplyMessage token text).

Definition push_message (to text : str) : M unit := log (PushMessage to text).

(** The filter of [filter_by(user_id=..., event_time=..., event_content=...,
    is_sent=False)]. *)
Definition matches_unsent (user : str) (time : datetime) (content : str)
    (r : Reminder) : bool :=
  str_eqb (user_id r) user && datetime_eqb (event_time r) time &&
  str_eqb (event_content r) content && negb (is_sent r).

(** [session.query(Reminder).filter_by(...).first()]. *)
Definition query_first (user : str) (time : datetime) (content : str)
    : M (option Reminder) :=
  rows <- get_reminders ;;
  log (QueryFirst user time content) ;;
  ret (find (matches_unsent user time content) rows).

Definition set_sent (r : Reminder) : Reminder :=
  mkReminder (id r) (user_id r) (event_time r) (event_content r) true.

(** [reminder.is_sent = True] and [session.commit()]: the update is by
    primary key. *)
Definition mark_sent (key : Z) (rows : list Reminder) : list Reminder :=
  map (fun r => if id r =? key then set_sent r else r) rows.

Definition commit_sent (reminder : Reminder) : M unit :=
  rows <- get_reminders ;;
  log (UpdateCommit (id reminder)) ;;
  set_reminders (mark_sent (id reminder) rows).

(** [os.unlink(path)]. *)
Definition unlink (path : str) : M unit :=
  fs <- get_files ;;
  log (Unlink path) ;;
  set_files (filter (fun f => negb (str_eqb (fst f) path)) fs).

(** [datetime.strptime(s, "%H:%M %Y-%m-%d")] in the program. *)
Definition datetime_strptime (s : str) : M datetime :=
  match strptime s with
  | Some dt => ret dt
  | None => raise ValueError
  end.

(** ** The program *)

Definition apology : str :=
  lit "Sorry, I couldn't understand the event details. Please try again.".

Definition prompt_for (transcription : str) : str :=
  lit "Extract the event time and content from this text: " ++ transcription ++
  lit ". Format the response as two lines: first line is the event time in 'HH:MM YYYY-MM-DD' format, second line is the event content.".

(** [send_reminder(user_id, event_time, event_content)] *)
Definition send_reminder (user : str) (time : datetime) (content : str) : M unit :=
  push_message user (lit "Reminder: " ++ strftime time ++ lit " - " ++ content) ;;
  reminder <- query_first user time content ;;
  match reminder with
  | Some r => commit_sent r
  | None => ret tt
  end.

(** [handle_audio_message(event)] *)
Definition handle_audio_message (event : MessageEvent) (ans : Answers) : M unit :=
  let user := source_user_id event in
  let message := message_id event in
  message_content <- get_message_content ans message ;;
  temp_audio_path <- named_temporary_file ans message_content ;;
  transcription <- transcriptions_create ans temp_audio_path ;;
  let prompt := prompt_for transcription in
  completion <- chat_completions_create ans prompt ;;
  let extracted_info := split newline (strip completion) in
  (if Nat.eqb (length extracted_info) 2 then
     match extracted_info with
     | [event_time_str; event_content] =>
         event_time <- datetime_strptime event_time_str ;;
         session_add_commit user event_time event_content ;;
         add_job event_time (user, event_time, event_content) ;;
         reply_message (reply_token event)
           (lit "Reminder set for " ++ event_time_str ++ lit ": " ++ event_content)
     | _ => raise ValueError
     end
   else
     reply_message (reply_token event) apology) ;;
  unlink temp_audio_path.

(** The scheduler runs its [k]-th pending job: a ['date'] job runs once, so
    it leaves the scheduler, and its callback is called with its arguments. *)
Definition remove_nth {A} (k : nat) (l : list A) : list A :=
  firstn k l ++ skipn (S k) l.

Definition run_job (k : nat) : M unit :=
  js <- get_jobs ;;
  match nth_error js k with
  | Some j =>
      set_jobs (remove_nth k js) ;;
      let '(user, time, content) := args j in
      send_reminder user time content
  | None => ret tt
  end.

Local Close Scope prog_scope.

(** ** The operations of the program as steps of the world *)

(** One operation: a webhook request with whatever the collaborators
    answer, the scheduler running a pending job, or a direct call of the
    delivery callback. *)
Inductive step : World -> World -> Prop :=
| step_webhook (event : MessageEvent) (ans : Answers) (w : World) :
    step w (world_of (handle_audio_message event ans w))
| step_job (k : nat) (w : World) :
    step w (world_of (run_job k w))
| step_send (user : str) (time : datetime) (content : str) (w : World) :
    step w (world_of (send_reminder user time content w)).

(** A run: the worlds a sequence of operations goes through. *)
Inductive Run : list World -> Prop :=
| run_start (w : World) : Run [w]
| run_step (w w' : World) (ws : list World) :
    step w w' -> Run (w' :: ws) -> Run (w :: w' :: ws).

(** The flag of the row at position [i] of the table, if there is one. *)
Definition sent_at (i : nat) (w : World) : option bool :=
  option_map is_sent (nth_error (reminders w) i).

(** How often the flag of row [i] goes from false to true along a run. *)
Fixpoint flips (i : nat) (ws : list World) : nat :=
  match ws with
  | w :: ((w' :: _) as rest) =>
      match sent_at i w, sent_at i w' with
      | Some false, Some true => S (flips i rest)
      | _, _ => flips i rest
      end
  | _ => 0%nat
  end.

(** The primary key: no two rows share an [id]. *)
Definition primary_key (rows : list Reminder) : Prop := NoDup (map id rows).

(** Case analysis on a number between bounds. *)
Ltac each_value n lo hi :=
  let k := fresh "k" in
  let E := fresh "E" in
  assert (E : exists k : nat, n = lo + Z.of_nat k /\ (k <= Z.to_nat (hi - lo))%nat)
    by (exists (Z.to_nat (n - lo)); lia);
  destruct E as (k & -> & E); cbn in E;
  repeat (destruct k as [|k]; [clear E | try (exfalso; lia)]).

(** Runs the monadic code of the program as far as it is determined. *)
Ltac run_prog :=
  repeat progress
    (unfold bind, ret, raise, log, get_reminders, get_jobs, get_files,
       set_reminders, set_jobs, set_files, get_message_content,
       named_temporary_file, transcriptions_create, chat_completions_create,
       session_add_commit, add_job, reply_message, push_message, query_first,
       commit_sent, unlink, datetime_strptime;
     cbn beta iota zeta;
     cbn [reminders jobs files trace iter_content completion_content
          transcription_text temp_name]).

(** ** The parts of the worlds the program leaves *)

(** The calls every request starts with, up to the model's completion. *)
Definition preamble (event : MessageEvent) (ans : Answers) : list Call :=
  [ GetMessageContent (message_id event);
    CreateTemp (temp_name ans);
    Transcribe (temp_name ans) (lit "whisper-large-v3");
    ChatCompletion
      (lit "You are a helpful assistant that extracts event information.")
      (prompt_for (transcription_text ans)) (lit "llama3-8b-8192") 200 ].

Definition audio_file (ans : Answers) : str * list N :=
  (temp_name ans, concat (iter_content ans)).

Definition without (path : str) (fs : list (str * list N)) : list (str * list N) :=
  filter (fun f => negb (str_eqb (fst f) path)) fs.

Definition new_row (event : MessageEvent) (dt : datetime) (c : str) (w : World)
    : Reminder :=
  mkReminder (next_id (reminders w)) (source_user_id event) dt c false.

Definition new_job (event : MessageEvent) (dt : datetime) (c : str) : Job :=
  mkJob dt (source_user_id event, dt, c).

Definition confirmation (t c : str) : str :=
  lit "Reminder set for " ++ t ++ lit ": " ++ c.

(** The text the delivery callback pushes. *)
Definition reminder_text (time : datetime) (content : str) : str :=
  lit "Reminder: " ++ strftime time ++ lit " - " ++ content.

(** What one operation can do to the table: nothing, append an unsent row
    with a fresh key, or mark the rows of one key as sent. *)
Inductive table_change (rows : list Reminder) : list Reminder -> Prop :=
| change_none : table_change rows rows
| change_insert (user : str) (time : datetime) (content : str) :
    table_change rows (rows ++ [mkReminder (next_id rows) user time content false])
| change_mark (key : Z) : table_change rows (mark_sent key rows).

(** No row of the table has an empty content. *)
Definition contentful (rows : list Reminder) : Prop :=
  Forall (fun r => event_content r <> []) rows.

(** The flag of a row over one operation: a row appears unsent, an unsent
    row stays or becomes sent, a sent row stays sent. *)
Definition allowed (before after : option bool) : Prop :=
  match before, after with
  | None, None => True
  | None, Some false => True
  | Some false, Some _ => True
  | Some true, Some true => True
  | _, _ => False
  end.

(** ** Scenarios *)

(** The scenario of the specification: Bob's meeting. *)
Definition bob_event : MessageEvent :=
  mkMessageEvent (lit "U1") (lit "m1") (lit "tok1").

Definition bob_answers : Answers :=
  mkAnswers [[1; 2]%N; [3%N]] (lit "/tmp/tmp1.m4a")
    (lit "Meeting with Bob at 3pm tomorrow")
    (lit "15:00 2024-06-05" ++ [newline] ++ lit "Meeting with Bob").

Definition bob_time : datetime := mkDatetime 2024 6 5 15 0 0 0.

(** The model answers with a first line that is no time. *)
Definition vague_answers : Answers :=
  mkAnswers [[1; 2]%N; [3%N]] (lit "/tmp/tmp2.m4a")
    (lit "Meeting with Bob sometime")
    (lit "tomorrow at three" ++ [newline] ++ lit "Meeting with Bob").

(** The model answers with three lines. *)
Definition chatty_answers : Answers :=
  mkAnswers [[1; 2]%N; [3%N]] (lit "/tmp/tmp3.m4a")
    (lit "Meeting with Bob at 3pm tomorrow")
    (lit "Here you go:" ++ [newline] ++ lit "15:00 2024-06-05" ++ [newline] ++
     lit "Meeting with Bob").

(** The world after Bob's request, after its job has run, and after the
    callback is called once more with the same arguments. *)
Definition bob_world : World :=
  world_of (handle_audio_message bob_event bob_answers empty_world).

Definition bob_delivered : World := world_of (run_job 0 bob_world).

Definition bob_again : World :=
  world_of (send_reminder (lit "U1") bob_time (lit "Meeting with Bob") bob_delivered).

Definition bob_run : list World :=
  [empty_world; bob_world; bob_delivered; bob_again].

(** A reminder for the first minute of the year 1. *)
Definition new_era_answers : Answers :=
  mkAnswers [[1; 2]%N; [3%N]] (lit "/tmp/tmp5.m4a")
    (lit "New era at the start of year one")
    (lit "00:00 0001-01-01" ++ [newline] ++ lit "New era").

Definition new_era_time : datetime := mkDatetime 1 1 1 0 0 0 0.

Definition new_era_world : World :=
  world_of (handle_audio_message bob_event new_era_answers empty_world).

(** ** Further notions: the extraction, the webhook route, the scheduler *)

(** [s.count(c)] for one character. *)
Definition count_char (c : char) (s : str) : nat :=
  length (filter (fun x => char_eqb x c) s).

(** A text of white space only. *)
Definition all_space (s : str) : bool := forallb isspace s.

(** The same answers with another completion. *)
Definition with_completion (ans : Answers) (content : str) : Answers :=
  mkAnswers (iter_content ans) (temp_name ans) (transcription_text ans) content.

(** The world the apology branch leaves. *)
Definition apology_world (event : MessageEvent) (ans : Answers) (w : World)
    : World :=
  mkWorld (reminders w) (jobs w)
    (without (temp_name ans) (files w ++ [audio_file ans]))
    (trace w ++ preamble event ans ++
       [ReplyMessage (reply_token event) apology; Unlink (temp_name ans)]).

(** The calls an operation has added to the trace. *)
Definition new_calls (w w' : World) : list Call :=
  skipn (length (trace w)) (trace w').

Definition is_reply (c : Call) : bool :=
  match c with
  | ReplyMessage _ _ => true
  | _ => false
  end.

(** What a pattern takes from the subject: a prefix; a prefix that ends in
    a decimal digit; a prefix that starts with one. *)
Definition Consumes {A} (p : Re A) : Prop :=
  forall s a rest, In (a, rest) (p s) -> exists pre, s = pre ++ rest.

Definition EndsInDigit {A} (p : Re A) : Prop :=
  forall s a rest, In (a, rest) (p s) ->
    exists pre c, s = pre ++ c :: rest /\ decimal c <> None.

Definition StartsWithDigit {A} (p : Re A) : Prop :=
  forall s a rest, In (a, rest) (p s) ->
    exists c s', s = c :: s' /\ decimal c <> None.

(** *** The webhook route

    [handler.handle(body, signature)] of the messaging SDK checks the
    signature of the body, raising [InvalidSignatureError] when it does not
    fit, and then goes through the events of the body in order, calling for
    each the function registered for its kind.  The program registers one
    function, [handle_audio_message], for message events that carry audio;
    no default is registered, so every other event is passed over.  Whether
    the signature fits and what the body holds are given with the request,
    together with what the collaborators answer while each audio event is
    handled. *)
Inductive WebhookEvent :=
| AudioMessageEvent (event : MessageEvent) (ans : Answers)
| OtherEvent.

Record Request := mkRequest {
  x_line_signature : option str;      (* the header, if the request has it *)
  signature_fits : bool;
  events : list WebhookEvent
}.

Fixpoint handle_events (evs : list WebhookEvent) : M unit :=
  match evs with
  | [] => ret tt
  | AudioMessageEvent event ans :: rest =>
      bind (handle_audio_message event ans) (fun _ => handle_events rest)
  | OtherEvent :: rest => handle_events rest
  end.

(** How a call of [callback] ends: it returns the text [OK]; it aborts with
    a status; the lookup of the header raises [KeyError]; or an exception of
    a handler, which [callback] does not catch, leaves it. *)
Inductive Response :=
| Body (text : str)
| Abort (status : Z)
| KeyError
| Uncaught (e : Exn).

(** [callback()] *)
Definition callback (request : Request) (w : World) : Response * World :=
  match x_line_signature request with
  | None => (KeyError, w)
  | Some signature =>
      if signature_fits request then
        match handle_events (events request) w with
        | Returned _ w' => (Body (lit "OK"), w')
        | Raised e w' => (Uncaught e, w')
        end
      else (Abort 400, w)
  end.

Definition is_audio (e : WebhookEvent) : bool :=
  match e with
  | AudioMessageEvent _ _ => true
  | OtherEvent => false
  end.

(** *** Pending jobs and unsent rows *)

(** The jobs whose arguments are the given three. *)
Definition job_for (user : str) (time : datetime) (content : str) (j : Job)
    : bool :=
  let '(u, t, c) := args j in
  str_eqb u user && datetime_eqb t time && str_eqb c content.

Definition pending (user : str) (time : datetime) (content : str) (w : World)
    : nat :=
  length (filter (job_for user time content) (jobs w)).

Definition unsent (user : str) (time : datetime) (content : str) (w : World)
    : nat :=
  length (filter (matches_unsent user time content) (reminders w)).

(** Every pending job has an unsent row of its own to mark. *)
Definition covered (w : World) : Prop :=
  forall user time content,
    (pending user time content w <= unsent user time content w)%nat.

(** A job leaves the scheduler without its callback being called: the
    scheduler keeps its jobs in memory only, so the jobs of a process are
    gone with it, and it drops a job whose run date it has missed. *)
Definition lose_job (k : nat) (w : World) : World :=
  mkWorld (reminders w) (remove_nth k (jobs w)) (files w) (trace w).

(** The operations of the running program: [send_reminder] is called by the
    scheduler only. *)
Inductive program_step : World -> World -> Prop :=
| program_webhook (event : MessageEvent) (ans : Answers) (w : World) :
    program_step w (world_of (handle_audio_message event ans w))
| program_job (k : nat) (w : World) :
    program_step w (world_of (run_job k w))
| program_loss (k : nat) (w : World) :
    program_step w (lose_job k w).

Inductive program_run : World -> World -> Prop :=
| program_here (w : World) : program_run w w
| program_then (w w' w'' : World) :
    program_step w w' -> program_run w' w'' -> program_run w w''.

(** *** The listening port

    [int(s)] for a string, in base ten, as CPython reads it: decimal digits
    and white space outside ASCII are first replaced by their ASCII
    counterparts and every other character outside ASCII by [?]; then come
    white space (of the C locale), an optional sign, digits with single
    underscores between them, and white space again.  A number of more than
    4300 digits is refused. *)
Definition ascii_space (c : char) : bool :=
  ((9 <=? c) && (c <=? 13) || (c =? 32))%N.

Definition to_ascii (c : char) : char :=
  if (c <? 127)%N then c
  else if isspace c then 32%N
  else match decimal c with
       | Some v => (48 + Z.to_N v)%N
       | None => 63%N
       end.

Fixpoint skip_spaces (s : str) : str :=
  match s with
  | [] => []
  | c :: r => if ascii_space c then skip_spaces r else s
  end.

Definition ascii_digit (c : char) : option Z :=
  if ((48 <=? c) && (c <=? 57))%N then Some (Z.of_N c - 48) else None.

(** The scan over digits and underscores: the value read, the number of
    digits, whether the last character was an underscore, and the rest of
    the text; [None] on two underscores in a row. *)
Fixpoint scan_digits (s : str) (prev_underscore : bool) (value : Z) (digits : nat)
    : option (Z * nat * bool * str) :=
  match s with
  | [] => Some (value, digits, prev_underscore, [])
  | c :: r =>
      match ascii_digit c with
      | Some d => scan_digits r false (10 * value + d) (S digits)
      | None =>
          if (c =? 95)%N then
            if prev_underscore then None else scan_digits r true value digits
          else Some (value, digits, prev_underscore, s)
      end
  end.

Definition max_str_digits : nat := 4300.

(** [int(s)]; [None] stands for [ValueError]. *)
Definition int_of_str (s : str) : option Z :=
  let s1 := skip_spaces (map to_ascii s) in
  let '(sign, s2) :=
    match s1 with
    | c :: r => if (c =? 43)%N then (1, r)
                else if (c =? 45)%N then (-1, r)
                else (1, s1)
    | [] => (1, s1)
    end in
  match s2 with
  | [] => None
  | c :: _ =>
      if (c =? 95)%N then None
      else
        match scan_digits s2 false 0 0 with
        | None => None
        | Some (value, digits, last_underscore, s3) =>
            if last_underscore then None
            else if Nat.eqb digits 0 then None
            else if Nat.ltb max_str_digits digits then None
            else match skip_spaces s3 with
                 | [] => Some (sign * value)
                 | _ :: _ => None
                 end
        end
  end.

(** [os.environ.get(key)] on the variables of the process. *)
Definition environ_get (environ : list (str * str)) (key : str) : option str :=
  option_map snd (find (fun kv => str_eqb (fst kv) key) environ).

(** [port = int(os.environ.get("PORT", 5000))]; [None] stands for the
    [ValueError] that ends the start of the program. *)
Definition port (environ : list (str * str)) : option Z :=
  match environ_get environ (lit "PORT") with
  | None => Some 5000
  | Some s => int_of_str s
  end.

(** The number a list of digits spells. *)
Definition number_of (ds : list Z) : Z := fold_left (fun acc d => 10 * acc + d) ds 0.

(** *** Further scenarios *)

(** The model answers with Windows line ends. *)
Definition crlf_answers : Answers :=
  mkAnswers [[1; 2]%N; [3%N]] (lit "/tmp/tmp4.m4a")
    (lit "Meeting with Bob at 3pm tomorrow")
    (lit "15:00 2024-06-05" ++ [13%N; newline] ++ lit "Meeting with Bob").

(** The model pads its answer with blank lines and spaces. *)
Definition padded_answers : Answers :=
  with_completion bob_answers
    ([newline; 32%N] ++ completion_content bob_answers ++ [32%N; newline; 9%N]).

(** * Properties *)

(** ** The library functions on examples *)

Example strip_ex :
  strip (lit " a" ++ [newline] ++ lit "b " ++ [31%N]) = lit "a" ++ [newline] ++ lit "b".
Proof. reflexivity. Qed.

Example split_ex :
  split newline (lit "a" ++ [newline; newline] ++ lit "b") = [lit "a"; []; lit "b"].
Proof. reflexivity. Qed.

Example split_empty_ex : split newline [] = [[]].
Proof. reflexivity. Qed.

Example strptime_ex1 :
  strptime (lit "15:00 2024-06-05") = Some (mkDatetime 2024 6 5 15 0 0 0).
Proof. reflexivity. Qed.

Example strptime_ex2 :
  strptime (lit "5:3 2024-6-5") = Some (mkDatetime 2024 6 5 5 3 0 0).
Proof. reflexivity. Qed.

Example strptime_ex3 :
  strptime (lit "15:00" ++ [9%N; 12288%N] ++ lit "2024-06- 5")
  = Some (mkDatetime 2024 6 5 15 0 0 0).
Proof. reflexivity. Qed.

Example strptime_ex4 :
  strptime ([65297%N] ++ lit ":" ++ [65301%N] ++ lit " " ++
            [65298; 65296; 65298; 65300]%N ++ lit "-1-1")
  = Some (mkDatetime 2024 1 1 1 5 0 0).
Proof. reflexivity. Qed.

Example strptime_rejects :
  map strptime
    [ lit "15:00 2024-06-05 "; lit "24:00 2024-06-05"; lit "15:60 2024-06-05";
      lit "15:00 0000-06-05"; lit "15:00 2024-02-30"; lit "15:00 2023-02-29";
      lit "15:00 2024-13-01"; lit "15:00 2024-00-01"; lit "15:00 2024-06-32";
      lit "15:00 2024-06-00"; lit "015:00 2024-06-05"; lit "15:00 02024-06-05";
      lit "15:00 2024-06-050"; lit "15:00 2024-010-05"; lit "15:00 2024-06-39";
      lit "15:00 2024-06- 0"; lit "tomorrow at three"; [] ]
  = repeat None 18.
Proof. reflexivity. Qed.

Example strptime_accepts :
  map strptime
    [ lit "15:00 2024-02-29"; lit "15:00 2024-6-05"; lit "15:00 2024-06-3";
      lit "00:00 0001-01-01"; lit "23:59 9999-12-31" ]
  = [ Some (mkDatetime 2024 2 29 15 0 0 0); Some (mkDatetime 2024 6 5 15 0 0 0);
      Some (mkDatetime 2024 6 3 15 0 0 0); Some (mkDatetime 1 1 1 0 0 0 0);
      Some (mkDatetime 9999 12 31 23 59 0 0) ].
Proof. reflexivity. Qed.

Example strftime_ex :
  strftime (mkDatetime 2024 6 5 15 0 0 0) = lit "15:00 2024-06-05".
Proof. reflexivity. Qed.

Example strftime_early_years :
  map strftime
    [ mkDatetime 999 1 2 3 4 0 0; mkDatetime 1 1 1 0 0 0 0;
      mkDatetime 12 3 4 5 6 0 0; mkDatetime 1000 1 1 0 0 0 0;
      mkDatetime 9999 12 31 23 59 0 0 ]
  = [ lit "03:04 999-01-02"; lit "00:00 1-01-01"; lit "05:06 12-03-04";
      lit "00:00 1000-01-01"; lit "23:59 9999-12-31" ].
Proof. reflexivity. Qed.

Example bob_is_stored :
  let w := world_of (handle_audio_message bob_event bob_answers empty_world) in
  reminders w = [mkReminder 1 (lit "U1") bob_time (lit "Meeting with Bob") false]
  /\ jobs w = [mkJob bob_time (lit "U1", bob_time, lit "Meeting with Bob")]
  /\ files w = []
  /\ In (ReplyMessage (lit "tok1") (lit "Reminder set for 15:00 2024-06-05: Meeting with Bob"))
        (trace w).
Proof. vm_compute. repeat split. auto 20. Qed.

(** ** Strings *)

Lemma char_eqb_eq (a b : char) : char_eqb a b = true <-> a = b.
Proof. apply N.eqb_eq. Qed.

Lemma str_eqb_eq (a b : str) : str_eqb a b = true <-> a = b.
Proof.
  revert b; induction a as [|x a IH]; intros [|y b]; simpl; split;
    try congruence; try reflexivity.
  - rewrite andb_true_iff, char_eqb_eq, IH. intros [-> ->]; reflexivity.
  - intros E; injection E as -> ->.
    rewrite andb_true_iff, char_eqb_eq, IH. split; reflexivity.
Qed.

Lemma str_eqb_refl (a : str) : str_eqb a a = true.
Proof. apply str_eqb_eq; reflexivity. Qed.

Lemma datetime_eqb_eq (a b : datetime) : datetime_eqb a b = true <-> a = b.
Proof.
  destruct a, b; unfold datetime_eqb; simpl.
  rewrite !andb_true_iff, !Z.eqb_eq. split.
  - intros [[[[[[-> ->] ->] ->] ->] ->] ->]; reflexivity.
  - intros E; injection E as -> -> -> -> -> -> ->; repeat split.
Qed.

Lemma split_not_nil (sep : char) (s : str) : split sep s <> [].
Proof.
  destruct s as [|c s]; simpl; [discriminate|].
  destruct (char_eqb c sep); [discriminate|].
  destruct (split sep s); discriminate.
Qed.

Lemma join_split (sep : char) (s : str) : join sep (split sep s) = s.
Proof.
  induction s as [|c s IH]; simpl; [reflexivity|].
  destruct (char_eqb c sep) eqn:E.
  - apply char_eqb_eq in E; subst c.
    pose proof (split_not_nil sep s) as NE.
    destruct (split sep s) as [|p ps]; [contradiction|].
    simpl in *. rewrite IH. reflexivity.
  - pose proof (split_not_nil sep s) as NE.
    destruct (split sep s) as [|p ps]; [contradiction|].
    destruct ps as [|q ps]; simpl in *; rewrite <- IH; reflexivity.
Qed.

Lemma split_two (sep : char) (s a b : str) :
  split sep s = [a; b] -> s = a ++ sep :: b.
Proof. intros E. rewrite <- (join_split sep s), E. reflexivity. Qed.

Lemma lstrip_head (s : str) (c : char) (s' : str) :
  lstrip s = c :: s' -> isspace c = false.
Proof.
  induction s as [|x s IH]; simpl; [discriminate|].
  destruct (isspace x) eqn:E; [exact IH|].
  intros H; injection H as <- _; exact E.
Qed.

(** [lstrip] drops a prefix, so [rstrip] drops a suffix. *)
Lemma lstrip_suffix (s : str) : exists ws, s = ws ++ lstrip s.
Proof.
  induction s as [|x s [ws IH]]; simpl.
  - exists []; reflexivity.
  - destruct (isspace x).
    + exists (x :: ws). simpl. rewrite <- IH. reflexivity.
    + exists []; reflexivity.
Qed.

Lemma rstrip_prefix (s : str) : exists ws, s = rstrip s ++ ws.
Proof.
  unfold rstrip. destruct (lstrip_suffix (rev s)) as [ws E].
  exists (rev ws). rewrite <- rev_app_distr, <- E, rev_involutive. reflexivity.
Qed.

Lemma strip_head (s : str) (c : char) (s' : str) :
  strip s = c :: s' -> isspace c = false.
Proof.
  unfold strip. intros E.
  destruct (rstrip_prefix (lstrip s)) as [ws P].
  rewrite E in P. simpl in P. apply (lstrip_head s P).
Qed.

Lemma strip_last (s : str) (s' : str) (c : char) :
  strip s = s' ++ [c] -> isspace c = false.
Proof.
  unfold strip, rstrip. intros E.
  apply (f_equal (@rev char)) in E.
  rewrite rev_involutive, rev_app_distr in E. simpl in E.
  apply (lstrip_head _ E).
Qed.

(** The two pieces of a stripped text cut at its only newline are not
    empty: an empty piece would put the newline, which is white space, at an
    end of the stripped text. *)
Lemma two_fields_nonempty (s a b : str) :
  split newline (strip s) = [a; b] -> a <> [] /\ b <> [].
Proof.
  intros E. apply split_two in E. split; intros ->.
  - simpl in E. apply strip_head in E. discriminate E.
  - apply strip_last in E. discriminate E.
Qed.

Lemma two_or_not (l : list str) :
  (exists a b, l = [a; b]) \/ length l <> 2%nat.
Proof.
  destruct l as [|a [|b [|c l]]]; simpl;
    try (right; discriminate).
  left; exists a, b; reflexivity.
Qed.

(** ** Rendering and parsing agree *)

Lemma first_match_bind {A B} (p : Re A) (k : A -> Re B) (s r r' : str)
    (a : A) (b : B) :
  first_match p s a r -> first_match (k a) r b r' ->
  first_match (re_bind p k) s b r'.
Proof.
  intros [tl E] [tl' E']. unfold first_match, re_bind.
  rewrite E. cbn [flat_map]. rewrite E'. eexists. reflexivity.
Qed.

Lemma first_match_ret {A} (a : A) (s : str) : first_match (re_ret a) s a s.
Proof. exists []. reflexivity. Qed.

Lemma first_match_char (c : char) (s : str) : first_match (re_char c) (c :: s) tt s.
Proof.
  exists []. unfold re_char, char_eqb. rewrite N.eqb_refl. reflexivity.
Qed.

Lemma first_match_digit (v : Z) (s : str) :
  0 <= v <= 9 -> first_match re_digit (digit_char v :: s) v s.
Proof.
  intros B. each_value v 0 9; exists []; reflexivity.
Qed.

Lemma digit_not_space (v : Z) : 0 <= v <= 9 -> isspace (digit_char v) = false.
Proof. intros B. each_value v 0 9; reflexivity. Qed.

Lemma first_match_H (v : Z) (s : str) :
  0 <= v <= 23 -> first_match re_H (pad2 v ++ s) v s.
Proof.
  intros B. unfold first_match.
  each_value v 0 23; vm_compute; eexists; reflexivity.
Qed.

Lemma first_match_M (v : Z) (s : str) :
  0 <= v <= 59 -> first_match re_M (pad2 v ++ s) v s.
Proof.
  intros B. unfold first_match.
  each_value v 0 59; vm_compute; eexists; reflexivity.
Qed.

Lemma first_match_m (v : Z) (s : str) :
  1 <= v <= 12 -> first_match re_m (pad2 v ++ s) v s.
Proof.
  intros B. unfold first_match.
  each_value v 1 12; vm_compute; eexists; reflexivity.
Qed.

Lemma first_match_d (v : Z) (s : str) :
  1 <= v <= 31 -> first_match re_d (pad2 v ++ s) v s.
Proof.
  intros B. unfold first_match.
  each_value v 1 31; vm_compute; eexists; reflexivity.
Qed.

Lemma decimal_digit_bound (v : Z) : 0 <= v mod 10 <= 9.
Proof. pose proof (Z.mod_pos_bound v 10). lia. Qed.

Lemma four_digits (v : Z) :
  0 <= v <= 9999 ->
  1000 * (v / 1000 mod 10) + 100 * (v / 100 mod 10)
  + 10 * (v / 10 mod 10) + v mod 10 = v.
Proof. intros B. Z.to_euclidean_division_equations. lia. Qed.

Lemma first_match_Y (v : Z) (s : str) :
  0 <= v <= 9999 -> first_match re_Y (pad4 v ++ s) v s.
Proof.
  intros B. unfold re_Y, pad4. cbn [app].
  eapply first_match_bind; [apply first_match_digit, decimal_digit_bound|].
  eapply first_match_bind; [apply first_match_digit, decimal_digit_bound|].
  eapply first_match_bind; [apply first_match_digit, decimal_digit_bound|].
  eapply first_match_bind; [apply first_match_digit, decimal_digit_bound|].
  rewrite (four_digits B). apply first_match_ret.
Qed.

Lemma first_match_blank (c : char) (s : str) :
  isspace c = false -> first_match re_spaces (32%N :: c :: s) tt (c :: s).
Proof.
  intros NS. exists []. cbn [re_spaces].
  replace (isspace 32%N) with true by reflexivity. rewrite NS. reflexivity.
Qed.

Lemma days_in_month_le (y m : Z) : days_in_month y m <= 31.
Proof.
  unfold days_in_month.
  destruct (m =? 2); [destruct (is_leap y); lia|].
  destruct (_ || _); lia.
Qed.

(** A valid time written as [HH:MM YYYY-MM-DD] is read back by [strptime]:
    the strict form of the format is among the texts it accepts. *)
Lemma strptime_canonical (y m d H M : Z) (dt : datetime) :
  make_datetime y m d H M 0 0 = Some dt ->
  strptime (HH_MM_YYYY_MM_DD dt) = Some dt.
Proof.
  intros V. pose proof V as V'. unfold make_datetime in V'.
  destruct (_ && _) eqn:R in V'; [|discriminate V'].
  injection V' as <-.
  rewrite !andb_true_iff, !Z.leb_le in R.
  pose proof (days_in_month_le y m) as D.
  assert (F : first_match format_regex
                (HH_MM_YYYY_MM_DD (mkDatetime y m d H M 0 0)) (H, M, y, m, d) []).
  { unfold format_regex, HH_MM_YYYY_MM_DD. cbn [hour minute year month day].
    change (lit ":") with [58%N]. change (lit " ") with [32%N].
    change (lit "-") with [45%N].
    eapply first_match_bind; [apply first_match_H; lia|].
    cbn [app].
    eapply first_match_bind; [apply first_match_char|].
    eapply first_match_bind; [apply first_match_M; lia|].
    cbn [app].
    eapply first_match_bind;
      [unfold pad4; cbn [app]; apply first_match_blank, digit_not_space, decimal_digit_bound|].
    eapply first_match_bind; [apply (first_match_Y (v := y)); lia|].
    cbn [app].
    eapply first_match_bind; [apply first_match_char|].
    eapply first_match_bind; [apply first_match_m; lia|].
    cbn [app].
    eapply first_match_bind; [apply first_match_char|].
    eapply first_match_bind;
      [rewrite <- (app_nil_r (pad2 d)); apply first_match_d; lia|].
    apply first_match_ret. }
  destruct F as [others F]. unfold strptime. rewrite F. exact V.
Qed.

(** From the year 1000 on the year has its four digits, and [strftime]
    writes [HH:MM YYYY-MM-DD]. *)
Lemma year_text_four (y : Z) : 1000 <= y -> year_text y = pad4 y.
Proof.
  intros B. unfold year_text.
  destruct (Z.ltb_spec y 10); [lia|].
  destruct (Z.ltb_spec y 100); [lia|].
  destruct (Z.ltb_spec y 1000); [lia|]. reflexivity.
Qed.

Lemma strftime_canonical (dt : datetime) :
  1000 <= year dt -> strftime dt = HH_MM_YYYY_MM_DD dt.
Proof.
  intros B. unfold strftime, HH_MM_YYYY_MM_DD. rewrite (year_text_four B).
  reflexivity.
Qed.

Lemma strptime_strftime (y m d H M : Z) (dt : datetime) :
  make_datetime y m d H M 0 0 = Some dt ->
  1000 <= year dt ->
  strptime (strftime dt) = Some dt.
Proof.
  intros V B. rewrite (strftime_canonical _ B). apply (strptime_canonical _ _ _ _ _ V).
Qed.

(** ** What the handler does, branch by branch *)

Lemma handle_accepted (event : MessageEvent) (ans : Answers) (w : World)
    (t c : str) (dt : datetime) :
  split newline (strip (completion_content ans)) = [t; c] ->
  strptime t = Some dt ->
  handle_audio_message event ans w =
  Returned tt
    (mkWorld (reminders w ++ [new_row event dt c w])
             (jobs w ++ [new_job event dt c])
             (without (temp_name ans) (files w ++ [audio_file ans]))
             (trace w ++ preamble event ans ++
                [ InsertCommit (new_row event dt c w);
                  AddJob (new_job event dt c);
                  ReplyMessage (reply_token event) (confirmation t c);
                  Unlink (temp_name ans) ])).
Proof.
  intros E P.
  unfold handle_audio_message. run_prog.
  rewrite E. cbn [length Nat.eqb]. run_prog. rewrite P. run_prog.
  unfold preamble, new_row, new_job, confirmation, without, audio_file.
  repeat rewrite <- app_assoc. reflexivity.
Qed.

Lemma handle_parse_failure (event : MessageEvent) (ans : Answers) (w : World)
    (t c : str) :
  split newline (strip (completion_content ans)) = [t; c] ->
  strptime t = None ->
  handle_audio_message event ans w =
  Raised ValueError
    (mkWorld (reminders w) (jobs w) (files w ++ [audio_file ans])
             (trace w ++ preamble event ans)).
Proof.
  intros E P.
  unfold handle_audio_message. run_prog.
  rewrite E. cbn [length Nat.eqb]. run_prog. rewrite P. run_prog.
  unfold preamble, audio_file.
  repeat rewrite <- app_assoc. reflexivity.
Qed.

Lemma handle_not_two (event : MessageEvent) (ans : Answers) (w : World) :
  length (split newline (strip (completion_content ans))) <> 2%nat ->
  handle_audio_message event ans w =
  Returned tt
    (mkWorld (reminders w) (jobs w)
             (without (temp_name ans) (files w ++ [audio_file ans]))
             (trace w ++ preamble event ans ++
                [ ReplyMessage (reply_token event) apology;
                  Unlink (temp_name ans) ])).
Proof.
  intros NE. apply Nat.eqb_neq in NE.
  unfold handle_audio_message. run_prog.
  rewrite NE. run_prog.
  unfold preamble, without, audio_file.
  repeat rewrite <- app_assoc. reflexivity.
Qed.

(** The three branches are all there is. *)
Lemma handle_cases (event : MessageEvent) (ans : Answers) :
  let lines := split newline (strip (completion_content ans)) in
  length lines <> 2%nat
  \/ (exists t c dt, lines = [t; c] /\ strptime t = Some dt)
  \/ (exists t c, lines = [t; c] /\ strptime t = None).
Proof.
  intros lines. destruct (two_or_not lines) as [(t & c & E)|NE]; [|left; exact NE].
  right. destruct (strptime t) as [dt|] eqn:P.
  - left; exists t, c, dt; split; assumption.
  - right; exists t, c; split; assumption.
Qed.

(** ** What the delivery callback does *)

Lemma send_reminder_found (user : str) (time : datetime) (content : str)
    (w : World) (r : Reminder) :
  find (matches_unsent user time content) (reminders w) = Some r ->
  send_reminder user time content w =
  Returned tt
    (mkWorld (mark_sent (id r) (reminders w)) (jobs w) (files w)
             (trace w ++ [ PushMessage user (reminder_text time content);
                           QueryFirst user time content;
                           UpdateCommit (id r) ])).
Proof.
  intros F.
  unfold send_reminder. run_prog. rewrite F. run_prog.
  unfold reminder_text. repeat rewrite <- app_assoc. reflexivity.
Qed.

Lemma send_reminder_none (user : str) (time : datetime) (content : str)
    (w : World) :
  find (matches_unsent user time content) (reminders w) = None ->
  send_reminder user time content w =
  Returned tt
    (mkWorld (reminders w) (jobs w) (files w)
             (trace w ++ [ PushMessage user (reminder_text time content);
                           QueryFirst user time content ])).
Proof.
  intros F.
  unfold send_reminder. run_prog. rewrite F. run_prog.
  unfold reminder_text. repeat rewrite <- app_assoc. reflexivity.
Qed.

Lemma run_job_some (k : nat) (w : World) (j : Job) (user : str)
    (time : datetime) (content : str) :
  nth_error (jobs w) k = Some j ->
  args j = (user, time, content) ->
  run_job k w =
  send_reminder user time content
    (mkWorld (reminders w) (remove_nth k (jobs w)) (files w) (trace w)).
Proof.
  intros J A.
  unfold run_job. run_prog. rewrite J. run_prog. rewrite A. reflexivity.
Qed.

Lemma run_job_none (k : nat) (w : World) :
  nth_error (jobs w) k = None -> run_job k w = Returned tt w.
Proof.
  intros J. unfold run_job. run_prog. rewrite J. reflexivity.
Qed.

(** ** The table *)

Lemma find_first {A} (f : A -> bool) (l : list A) (r : A) :
  find f l = Some r ->
  exists l1 l2, l = l1 ++ r :: l2 /\ f r = true /\ Forall (fun x => f x = false) l1.
Proof.
  induction l as [|x l IH]; simpl; [discriminate|].
  destruct (f x) eqn:E.
  - intros H; injection H as ->. exists [], l. repeat split; [exact E | constructor].
  - intros H. destruct (IH H) as (l1 & l2 & -> & Fr & Fl).
    exists (x :: l1), l2. repeat split; [exact Fr | constructor; assumption].
Qed.

Lemma find_all_false {A} (f : A -> bool) (l : list A) :
  Forall (fun x => f x = false) l -> find f l = None.
Proof.
  induction 1 as [|x l E _ IH]; simpl; [reflexivity|]. rewrite E. exact IH.
Qed.

Lemma filter_all_false {A} (f : A -> bool) (l : list A) :
  Forall (fun x => f x = false) l -> filter f l = [].
Proof.
  induction 1 as [|x l E _ IH]; simpl; [reflexivity|]. rewrite E. exact IH.
Qed.

Lemma filter_nil_all_false {A} (f : A -> bool) (l : list A) :
  filter f l = [] -> Forall (fun x => f x = false) l.
Proof.
  induction l as [|x l IH]; simpl; [constructor|].
  destruct (f x) eqn:E; [discriminate|]. intros H. constructor; auto.
Qed.

Lemma set_sent_not_unsent (user : str) (time : datetime) (content : str)
    (r : Reminder) :
  matches_unsent user time content (set_sent r) = false.
Proof. unfold matches_unsent; simpl. apply andb_false_r. Qed.

Lemma mark_sent_ids (key : Z) (rows : list Reminder) :
  map id (mark_sent key rows) = map id rows.
Proof.
  unfold mark_sent. rewrite map_map. apply map_ext.
  intros r. destruct (id r =? key); reflexivity.
Qed.

Lemma mark_sent_other (key : Z) (rows : list Reminder) :
  ~ In key (map id rows) -> mark_sent key rows = rows.
Proof.
  induction rows as [|r rows IH]; simpl; [reflexivity|].
  intros N. destruct (id r =? key) eqn:E.
  - apply Z.eqb_eq in E. exfalso; apply N; left; exact E.
  - rewrite IH; [reflexivity|]. intros I; apply N; right; exact I.
Qed.

(** Under the primary key, the update by key changes the one row that has
    the key. *)
Lemma mark_sent_one (l1 l2 : list Reminder) (r : Reminder) :
  primary_key (l1 ++ r :: l2) ->
  mark_sent (id r) (l1 ++ r :: l2) = l1 ++ set_sent r :: l2.
Proof.
  unfold primary_key. rewrite map_app. simpl. intros ND.
  apply NoDup_remove_2 in ND.
  unfold mark_sent. rewrite map_app. simpl. rewrite Z.eqb_refl.
  fold (mark_sent (id r) l1). fold (mark_sent (id r) l2).
  rewrite !mark_sent_other; [reflexivity| |];
    intros I; apply ND, in_or_app; [right|left]; exact I.
Qed.

Lemma ids_below_next (rows : list Reminder) (k : Z) :
  In k (map id rows) -> k < next_id rows.
Proof.
  unfold next_id. induction rows as [|r rows IH]; cbn [map fold_right In];
    [contradiction|].
  intros [<-|I]; [lia|]. specialize (IH I). lia.
Qed.

Lemma primary_key_insert (rows : list Reminder) (user : str) (time : datetime)
    (content : str) (sent : bool) :
  primary_key rows ->
  primary_key (rows ++ [mkReminder (next_id rows) user time content sent]).
Proof.
  unfold primary_key. intros ND. rewrite map_app. simpl.
  apply NoDup_app; [exact ND | repeat constructor; intros [] |].
  intros a I [<-|[]]. cbn [id] in I. apply ids_below_next in I. lia.
Qed.

Lemma primary_key_mark (key : Z) (rows : list Reminder) :
  primary_key rows -> primary_key (mark_sent key rows).
Proof. unfold primary_key. rewrite mark_sent_ids. trivial. Qed.

Lemma handle_table (event : MessageEvent) (ans : Answers) (w : World) :
  table_change (reminders w)
    (reminders (world_of (handle_audio_message event ans w))).
Proof.
  destruct (handle_cases event ans) as [NE|[(t & c & dt & E & P)|(t & c & E & P)]].
  - rewrite (handle_not_two event ans w NE). constructor.
  - rewrite (handle_accepted event ans w E P). apply change_insert.
  - rewrite (handle_parse_failure event ans w E P). constructor.
Qed.

Lemma send_table (user : str) (time : datetime) (content : str) (w : World) :
  table_change (reminders w)
    (reminders (world_of (send_reminder user time content w))).
Proof.
  destruct (find (matches_unsent user time content) (reminders w)) as [r|] eqn:F.
  - rewrite (send_reminder_found _ _ _ _ F). apply change_mark.
  - rewrite (send_reminder_none _ _ _ _ F). constructor.
Qed.

Lemma run_job_table (k : nat) (w : World) :
  table_change (reminders w) (reminders (world_of (run_job k w))).
Proof.
  destruct (nth_error (jobs w) k) as [j|] eqn:J.
  - destruct (args j) as [[user time] content] eqn:A.
    rewrite (run_job_some _ _ J A).
    apply (send_table user time content
             (mkWorld (reminders w) (remove_nth k (jobs w)) (files w) (trace w))).
  - rewrite (run_job_none _ _ J). constructor.
Qed.

Lemma step_table (w w' : World) :
  step w w' -> table_change (reminders w) (reminders w').
Proof.
  intros [event ans w0|k w0|user time content w0];
    [apply handle_table | apply run_job_table | apply send_table].
Qed.

(** The primary key holds in the empty table and every operation keeps it. *)
Lemma step_primary_key (w w' : World) :
  step w w' -> primary_key (reminders w) -> primary_key (reminders w').
Proof.
  intros S K. destruct (step_table S).
  - exact K.
  - apply primary_key_insert; exact K.
  - apply primary_key_mark; exact K.
Qed.

Lemma allowed_refl (x : option bool) : allowed x x.
Proof. destruct x as [[|]|]; exact I. Qed.

Lemma table_change_allowed (rows rows' : list Reminder) (i : nat) :
  table_change rows rows' ->
  allowed (option_map is_sent (nth_error rows i))
          (option_map is_sent (nth_error rows' i)).
Proof.
  intros [|user time content|key].
  - apply allowed_refl.
  - destruct (Nat.lt_ge_cases i (length rows)) as [L|G].
    + rewrite nth_error_app1 by exact L. apply allowed_refl.
    + rewrite (proj2 (nth_error_None rows i) G).
      rewrite nth_error_app2 by exact G.
      destruct (i - length rows)%nat as [|[|n]]; simpl; exact I.
  - unfold mark_sent. rewrite nth_error_map.
    destruct (nth_error rows i) as [r|]; simpl; [|exact I].
    destruct (id r =? key); simpl; destruct (is_sent r); exact I.
Qed.

Lemma step_allowed (w w' : World) (i : nat) :
  step w w' -> allowed (sent_at i w) (sent_at i w').
Proof. intros S. apply table_change_allowed, step_table, S. Qed.

(** The primary key holds from the empty table on, along every run. *)
Lemma primary_key_empty : primary_key (reminders empty_world).
Proof. constructor. Qed.

Lemma run_primary_key (ws : list World) :
  Run ws ->
  (forall w, nth_error ws 0 = Some w -> primary_key (reminders w)) ->
  forall w, In w ws -> primary_key (reminders w).
Proof.
  induction 1 as [w0|w0 w1 ws S R IH]; intros K w I.
  - destruct I as [<-|[]]. apply K. reflexivity.
  - assert (K0 : primary_key (reminders w0)) by (apply K; reflexivity).
    destruct I as [<-|I]; [exact K0|].
    apply IH; [|exact I].
    intros w' E. cbn in E. injection E as <-.
    apply (step_primary_key S K0).
Qed.

(** No operation touches the key, the user, the time or the content of a
    row, and rows keep their positions: the row at a position stays the same
    reminder. *)
Lemma step_keeps_rows (w w' : World) (i : nat) (r : Reminder) :
  step w w' ->
  nth_error (reminders w) i = Some r ->
  exists r',
    nth_error (reminders w') i = Some r'
    /\ id r' = id r /\ user_id r' = user_id r
    /\ event_time r' = event_time r /\ event_content r' = event_content r.
Proof.
  intros S E. destruct (step_table S) as [|user time content|key].
  - exists r. repeat split. exact E.
  - exists r. repeat split.
    rewrite nth_error_app1; [exact E|].
    apply nth_error_Some. rewrite E. discriminate.
  - unfold mark_sent. rewrite nth_error_map, E. cbn [option_map].
    destruct (id r =? key); eexists; repeat split.
Qed.

(** ** The webhook handler *)

(** C1. When the model's output, stripped, splits at newlines into exactly
    two lines and [strptime] parses the first under ["%H:%M %Y-%m-%d"], the
    handler returns normally, having appended one row with [is_sent = false]
    to the table, added one job whose run date is the parsed time, and
    replied with ["Reminder set for <line 1>: <line 2>"], line 1 as the model
    wrote it. *)
Theorem accepted_output_is_stored_scheduled_confirmed
    (event : MessageEvent) (ans : Answers) (w : World)
    (t c : str) (dt : datetime) :
  split newline (strip (completion_content ans)) = [t; c] ->
  strptime t = Some dt ->
  exists w',
    handle_audio_message event ans w = Returned tt w'
    /\ reminders w' =
       reminders w ++
         [mkReminder (next_id (reminders w)) (source_user_id event) dt c false]
    /\ jobs w' = jobs w ++ [mkJob dt (source_user_id event, dt, c)]
    /\ trace w' =
       trace w ++ preamble event ans ++
         [ InsertCommit
             (mkReminder (next_id (reminders w)) (source_user_id event) dt c false);
           AddJob (mkJob dt (source_user_id event, dt, c));
           ReplyMessage (reply_token event)
             (lit "Reminder set for " ++ t ++ lit ": " ++ c);
           Unlink (temp_name ans) ].
Proof.
  intros E P. eexists. split; [apply (handle_accepted event ans w E P)|].
  cbn [reminders jobs trace]. repeat split.
Qed.

Lemma accepted_output_witness :
  split newline (strip (completion_content bob_answers))
    = [lit "15:00 2024-06-05"; lit "Meeting with Bob"]
  /\ strptime (lit "15:00 2024-06-05") = Some bob_time
  /\ exists w',
       handle_audio_message bob_event bob_answers empty_world = Returned tt w'
       /\ reminders w' =
          [mkReminder 1 (lit "U1") bob_time (lit "Meeting with Bob") false]
       /\ jobs w' = [mkJob bob_time (lit "U1", bob_time, lit "Meeting with Bob")]
       /\ In (ReplyMessage (lit "tok1")
                (lit "Reminder set for 15:00 2024-06-05: Meeting with Bob"))
             (trace w').
Proof.
  split; [reflexivity|]. split; [reflexivity|].
  destruct (@accepted_output_is_stored_scheduled_confirmed
              bob_event bob_answers empty_world
              (lit "15:00 2024-06-05") (lit "Meeting with Bob") bob_time
              eq_refl eq_refl) as (w' & R & T & J & L).
  exists w'. split; [exact R|]. split; [exact T|]. split; [exact J|].
  rewrite L. cbn [trace empty_world app]. apply in_or_app. right.
  right. right. left. reflexivity.
Defined.

(** C2. When the model's output, stripped, does not split into exactly two
    lines, the handler returns normally (nothing is raised), the table and
    the scheduler are as they were, and the one reply is the apology,
    verbatim. *)
Theorem other_line_counts_get_the_apology
    (event : MessageEvent) (ans : Answers) (w : World) :
  length (split newline (strip (completion_content ans))) <> 2%nat ->
  exists w',
    handle_audio_message event ans w = Returned tt w'
    /\ reminders w' = reminders w
    /\ jobs w' = jobs w
    /\ trace w' =
       trace w ++ preamble event ans ++
         [ ReplyMessage (reply_token event)
             (lit "Sorry, I couldn't understand the event details. Please try again.");
           Unlink (temp_name ans) ].
Proof.
  intros NE. eexists. split; [apply (handle_not_two event ans w NE)|].
  cbn [reminders jobs trace]. repeat split.
Qed.

Lemma other_line_counts_witness :
  length (split newline (strip (completion_content chatty_answers))) = 3%nat
  /\ exists w',
       handle_audio_message bob_event chatty_answers bob_world = Returned tt w'
       /\ reminders w' = reminders bob_world
       /\ jobs w' = jobs bob_world
       /\ trace w' =
          trace bob_world ++ preamble bob_event chatty_answers ++
            [ ReplyMessage (lit "tok1")
                (lit "Sorry, I couldn't understand the event details. Please try again.");
              Unlink (lit "/tmp/tmp3.m4a") ].
Proof.
  split; [reflexivity|].
  apply (@other_line_counts_get_the_apology bob_event chatty_answers bob_world).
  vm_compute. discriminate.
Defined.

(** C3. Round trip: when the output is accepted, the row the handler
    appends carries the sender's user id, the datetime [strptime] reads from
    line 1, and line 2 character for character. *)
Theorem stored_row_matches_extraction
    (event : MessageEvent) (ans : Answers) (w : World)
    (t c : str) (dt : datetime) :
  split newline (strip (completion_content ans)) = [t; c] ->
  strptime t = Some dt ->
  exists row,
    reminders (world_of (handle_audio_message event ans w)) = reminders w ++ [row]
    /\ (user_id row, event_time row, event_content row)
       = (source_user_id event, dt, c).
Proof.
  intros E P. rewrite (handle_accepted event ans w E P).
  eexists. split; reflexivity.
Qed.

Lemma stored_row_witness :
  exists row,
    reminders bob_world = [row]
    /\ (user_id row, event_time row, event_content row)
       = (lit "U1", mkDatetime 2024 6 5 15 0 0 0, lit "Meeting with Bob").
Proof.
  apply (@stored_row_matches_extraction bob_event bob_answers empty_world
           (lit "15:00 2024-06-05") (lit "Meeting with Bob") bob_time);
    reflexivity.
Defined.

(** C8. When the output splits into exactly two lines and [strptime]
    rejects the first, the handler raises [ValueError]: nothing is appended
    to the table, no job is added, and no reply is sent, the apology
    included. *)
Theorem unparsable_time_raises
    (event : MessageEvent) (ans : Answers) (w : World) (t c : str) :
  split newline (strip (completion_content ans)) = [t; c] ->
  strptime t = None ->
  exists w',
    handle_audio_message event ans w = Raised ValueError w'
    /\ reminders w' = reminders w
    /\ jobs w' = jobs w
    /\ trace w' = trace w ++ preamble event ans
    /\ forall token text, ~ In (ReplyMessage token text) (preamble event ans).
Proof.
  intros E P. eexists. split; [apply (handle_parse_failure event ans w E P)|].
  cbn [reminders jobs trace]. repeat split.
  intros token text [H|[H|[H|[H|[]]]]]; discriminate H.
Qed.

Lemma unparsable_time_witness :
  exists w',
    handle_audio_message bob_event vague_answers bob_world = Raised ValueError w'
    /\ reminders w' = reminders bob_world
    /\ jobs w' = jobs bob_world
    /\ trace w' = trace bob_world ++ preamble bob_event vague_answers
    /\ forall token text,
         ~ In (ReplyMessage token text) (preamble bob_event vague_answers).
Proof.
  apply (@unparsable_time_raises bob_event vague_answers bob_world
           (lit "tomorrow at three") (lit "Meeting with Bob"));
    reflexivity.
Defined.

(** C6. A row is created only from two non-empty fields: whenever the
    handler changes the table, the model's output, stripped, splits into
    exactly two lines, neither of them empty; the handler has appended one
    row, whose time is what [strptime] reads from the first line and whose
    content is the second line, so no row has an empty content. *)
Theorem rows_come_from_two_nonempty_fields
    (event : MessageEvent) (ans : Answers) (w : World) :
  reminders (world_of (handle_audio_message event ans w)) <> reminders w ->
  exists t c row,
    split newline (strip (completion_content ans)) = [t; c]
    /\ t <> [] /\ c <> []
    /\ reminders (world_of (handle_audio_message event ans w)) = reminders w ++ [row]
    /\ strptime t = Some (event_time row)
    /\ event_content row = c
    /\ event_content row <> [].
Proof.
  intros Changed.
  destruct (handle_cases event ans) as [NE|[(t & c & dt & E & P)|(t & c & E & P)]].
  - rewrite (handle_not_two event ans w NE) in Changed.
    exfalso; apply Changed; reflexivity.
  - destruct (two_fields_nonempty _ E) as [Nt Nc].
    exists t, c, (new_row event dt c w).
    rewrite (handle_accepted event ans w E P). cbn [world_of reminders].
    repeat split; assumption.
  - rewrite (handle_parse_failure event ans w E P) in Changed.
    exfalso; apply Changed; reflexivity.
Qed.

Lemma rows_come_from_two_nonempty_fields_witness :
  exists t c row,
    split newline (strip (completion_content bob_answers)) = [t; c]
    /\ t <> [] /\ c <> []
    /\ reminders (world_of (handle_audio_message bob_event bob_answers empty_world))
       = reminders empty_world ++ [row]
    /\ strptime t = Some (event_time row)
    /\ event_content row = c
    /\ event_content row <> [].
Proof.
  apply (@rows_come_from_two_nonempty_fields bob_event bob_answers empty_world).
  vm_compute. discriminate.
Defined.

(** Hence no row with an empty content is ever in the table: the handler
    is the only operation that adds rows, and marking a row as sent leaves
    its content alone. *)
Lemma mark_sent_contentful (key : Z) (rows : list Reminder) :
  contentful rows -> contentful (mark_sent key rows).
Proof.
  unfold contentful, mark_sent. intros C. apply Forall_map.
  apply (Forall_impl _ (P := fun r => event_content r <> [])); [|exact C].
  intros r NE. destruct (id r =? key); exact NE.
Qed.

Lemma step_contentful (w w' : World) :
  step w w' -> contentful (reminders w) -> contentful (reminders w').
Proof.
  intros [event ans w0|k w0|user time content w0] C.
  - destruct (handle_cases event ans) as [NE|[(t & c & dt & E & P)|(t & c & E & P)]].
    + rewrite (handle_not_two event ans w0 NE). exact C.
    + rewrite (handle_accepted event ans w0 E P). cbn [world_of reminders].
      apply Forall_app. split; [exact C|].
      constructor; [|constructor]. apply (two_fields_nonempty _ E).
    + rewrite (handle_parse_failure event ans w0 E P). exact C.
  - destruct (nth_error (jobs w0) k) as [j|] eqn:J.
    + destruct (args j) as [[u t] c] eqn:A.
      rewrite (run_job_some _ _ J A).
      set (w1 := mkWorld (reminders w0) (remove_nth k (jobs w0)) (files w0) (trace w0)).
      destruct (find (matches_unsent u t c) (reminders w1)) as [r|] eqn:F.
      * rewrite (send_reminder_found _ _ _ _ F). apply mark_sent_contentful, C.
      * rewrite (send_reminder_none _ _ _ _ F). exact C.
    + rewrite (run_job_none _ _ J). exact C.
  - destruct (find (matches_unsent user time content) (reminders w0)) as [r|] eqn:F.
    + rewrite (send_reminder_found _ _ _ _ F). apply mark_sent_contentful, C.
    + rewrite (send_reminder_none _ _ _ _ F). exact C.
Qed.

Lemma run_contentful (ws : list World) :
  Run ws ->
  nth_error ws 0 = Some empty_world ->
  forall w r, In w ws -> In r (reminders w) -> event_content r <> [].
Proof.
  intros R H0.
  assert (G : forall ws, Run ws ->
            (forall w, nth_error ws 0 = Some w -> contentful (reminders w)) ->
            forall w, In w ws -> contentful (reminders w)).
  { clear. induction 1 as [w0|w0 w1 ws S R IH]; intros K w I.
    - destruct I as [<-|[]]. apply K. reflexivity.
    - assert (K0 : contentful (reminders w0)) by (apply K; reflexivity).
      destruct I as [<-|I]; [exact K0|].
      apply IH; [|exact I].
      intros w' E. cbn in E. injection E as <-. apply (step_contentful S K0). }
  intros w r Iw Ir.
  assert (C : contentful (reminders w)).
  { apply (G ws R); [|exact Iw].
    intros w0 E. rewrite H0 in E. injection E as <-. constructor. }
  unfold contentful in C. rewrite Forall_forall in C. apply C, Ir.
Qed.

(** ** The temporary file *)

Lemma without_absent (path : str) (fs : list (str * list N)) :
  ~ In path (map fst (without path fs)).
Proof.
  intros I. apply in_map_iff in I. destruct I as ([p b] & <- & I).
  apply filter_In in I. destruct I as [_ I]. cbn [fst] in I.
  rewrite str_eqb_refl in I. discriminate I.
Qed.

(** C9. The code breaks the claim, and its own comment ("Clean up temporary
    file"): the file is unlinked in the last statement of the handler only,
    which a raise never reaches.  Here the model's first line is no time,
    [strptime] raises, and the temporary file with the audio is still
    there. *)
Lemma temp_file_left_after_raise :
  let o := handle_audio_message bob_event vague_answers empty_world in
  returned o = false
  /\ files (world_of o) = [(lit "/tmp/tmp2.m4a", [1; 2; 3]%N)].
Proof. vm_compute. split; reflexivity. Qed.

(** Where the removal is reached and where it is missed: the temporary
    file is gone when the handler returns, on the success branch and on the
    apology branch, and it is still there whenever the handler raises. *)
Theorem temp_file_removed_iff_returned
    (event : MessageEvent) (ans : Answers) (w : World) :
  let o := handle_audio_message event ans w in
  if returned o
  then ~ In (temp_name ans) (map fst (files (world_of o)))
  else In (temp_name ans) (map fst (files (world_of o))).
Proof.
  cbv zeta.
  destruct (handle_cases event ans) as [NE|[(t & c & dt & E & P)|(t & c & E & P)]].
  - rewrite (handle_not_two event ans w NE). cbn [returned world_of files].
    apply without_absent.
  - rewrite (handle_accepted event ans w E P). cbn [returned world_of files].
    apply without_absent.
  - rewrite (handle_parse_failure event ans w E P). cbn [returned world_of files].
    rewrite map_app. apply in_or_app. right. left. reflexivity.
Qed.

(** ** The delivery callback *)

Lemma find_app_first {A} (f : A -> bool) (l1 l2 : list A) (r : A) :
  Forall (fun x => f x = false) l1 -> f r = true ->
  find f (l1 ++ r :: l2) = Some r.
Proof.
  induction 1 as [|x l E _ IH]; simpl; intros R.
  - rewrite R. reflexivity.
  - rewrite E. apply IH, R.
Qed.

Lemma find_is_first_filtered {A} (f : A -> bool) (l : list A) :
  find f l = hd_error (filter f l).
Proof.
  induction l as [|x l IH]; simpl; [reflexivity|].
  destruct (f x); [reflexivity | exact IH].
Qed.

(** C7, as the claim states it, fails: the time is not always rendered as
    [HH:MM YYYY-MM-DD].  The handler accepts the line ["00:00 0001-01-01"];
    when the job of that request runs, the text pushed is
    ["Reminder: 00:00 1-01-01 - New era"], with a year of one digit where
    the format has four. *)
Lemma year_one_is_pushed_unpadded :
  strptime (lit "00:00 0001-01-01") = Some new_era_time
  /\ jobs new_era_world = [mkJob new_era_time (lit "U1", new_era_time, lit "New era")]
  /\ new_calls new_era_world (world_of (run_job 0 new_era_world)) =
     [ PushMessage (lit "U1") (lit "Reminder: 00:00 1-01-01 - New era");
       QueryFirst (lit "U1") new_era_time (lit "New era");
       UpdateCommit 1 ]
  /\ HH_MM_YYYY_MM_DD new_era_time = lit "00:00 0001-01-01"
  /\ lit "Reminder: 00:00 1-01-01 - New era"
     <> lit "Reminder: " ++ HH_MM_YYYY_MM_DD new_era_time ++ lit " - " ++ lit "New era".
Proof.
  split; [reflexivity|]. split; [reflexivity|]. split; [reflexivity|].
  split; [reflexivity|]. intros E. vm_compute in E. discriminate E.
Qed.

(** C7, amended. When the scheduler runs a job, the callback first pushes
    to the user the text ["Reminder: "], the time, [" - "] and the content,
    where the time is written [HH:MM YYYY-MM-DD] when its year is 1000 or
    later and, below, in the same way but with the year without leading
    zeros; after the push it queries the table and sets [is_sent] of the
    first row that matches the three arguments and is unsent, leaving the
    other rows as they were. *)
Theorem job_pushes_then_marks_first_match
    (w : World) (k : nat) (j : Job) (user : str) (time : datetime)
    (content : str) (l1 l2 : list Reminder) (r : Reminder) :
  nth_error (jobs w) k = Some j ->
  args j = (user, time, content) ->
  primary_key (reminders w) ->
  reminders w = l1 ++ r :: l2 ->
  matches_unsent user time content r = true ->
  Forall (fun x => matches_unsent user time content x = false) l1 ->
  exists w',
    run_job k w = Returned tt w'
    /\ trace w' =
       trace w ++
         [ PushMessage user
             (lit "Reminder: " ++
              (if 1000 <=? year time then HH_MM_YYYY_MM_DD time
               else pad2 (hour time) ++ lit ":" ++ pad2 (minute time) ++ lit " " ++
                    year_text (year time) ++ lit "-" ++ pad2 (month time) ++
                    lit "-" ++ pad2 (day time)) ++
              lit " - " ++ content);
           QueryFirst user time content;
           UpdateCommit (id r) ]
    /\ reminders w' =
       l1 ++ mkReminder (id r) (user_id r) (event_time r) (event_content r) true :: l2
    /\ jobs w' = remove_nth k (jobs w).
Proof.
  intros J A K E R F.
  rewrite (run_job_some _ _ J A).
  assert (Fd : find (matches_unsent user time content) (reminders w) = Some r)
    by (rewrite E; apply find_app_first; assumption).
  eexists. split.
  - apply send_reminder_found. cbn [reminders]. exact Fd.
  - cbn [reminders jobs trace]. split; [|split; [|reflexivity]].
    + unfold reminder_text.
      destruct (Z.leb_spec 1000 (year time)) as [B|B];
        [rewrite (strftime_canonical _ B)|]; reflexivity.
    + rewrite E in K |- *. apply (mark_sent_one _ _ _ K).
Qed.

Lemma job_pushes_then_marks_witness :
  (exists w',
     run_job 0 bob_world = Returned tt w'
     /\ trace w' =
        trace bob_world ++
          [ PushMessage (lit "U1") (lit "Reminder: 15:00 2024-06-05 - Meeting with Bob");
            QueryFirst (lit "U1") bob_time (lit "Meeting with Bob");
            UpdateCommit 1 ]
     /\ reminders w' =
        [mkReminder 1 (lit "U1") bob_time (lit "Meeting with Bob") true]
     /\ jobs w' = [])
  /\ (exists w',
        run_job 0 new_era_world = Returned tt w'
        /\ trace w' =
           trace new_era_world ++
             [ PushMessage (lit "U1") (lit "Reminder: 00:00 1-01-01 - New era");
               QueryFirst (lit "U1") new_era_time (lit "New era");
               UpdateCommit 1 ]
        /\ reminders w' =
           [mkReminder 1 (lit "U1") new_era_time (lit "New era") true]
        /\ jobs w' = []).
Proof.
  split.
  - apply (@job_pushes_then_marks_first_match bob_world 0%nat
             (mkJob bob_time (lit "U1", bob_time, lit "Meeting with Bob"))
             (lit "U1") bob_time (lit "Meeting with Bob") [] []
             (mkReminder 1 (lit "U1") bob_time (lit "Meeting with Bob") false)).
    + reflexivity.
    + reflexivity.
    + vm_compute. repeat constructor. intros [].
    + reflexivity.
    + reflexivity.
    + constructor.
  - apply (@job_pushes_then_marks_first_match new_era_world 0%nat
             (mkJob new_era_time (lit "U1", new_era_time, lit "New era"))
             (lit "U1") new_era_time (lit "New era") [] []
             (mkReminder 1 (lit "U1") new_era_time (lit "New era") false)).
    + reflexivity.
    + reflexivity.
    + vm_compute. repeat constructor. intros [].
    + reflexivity.
    + reflexivity.
    + constructor.
Defined.

(** C10. Every call of the callback returns, and its first two calls are
    the push and then the query of the table, whatever the table holds.
    When no unsent row matches, these are its only calls and the table is
    left as it was; otherwise the update of the row found follows. *)
Theorem push_precedes_query_always
    (user : str) (time : datetime) (content : str) (w : World) :
  exists w' rest,
    send_reminder user time content w = Returned tt w'
    /\ trace w' =
       trace w ++
         PushMessage user (lit "Reminder: " ++ strftime time ++ lit " - " ++ content)
         :: QueryFirst user time content :: rest
    /\ match find (matches_unsent user time content) (reminders w) with
       | None => rest = [] /\ reminders w' = reminders w
       | Some r => rest = [UpdateCommit (id r)]
                   /\ reminders w' = mark_sent (id r) (reminders w)
       end.
Proof.
  destruct (find (matches_unsent user time content) (reminders w)) as [r|] eqn:F.
  - eexists; exists [UpdateCommit (id r)].
    split; [apply (send_reminder_found _ _ _ _ F)|].
    cbn [trace reminders]. repeat split.
  - eexists; exists [].
    split; [apply (send_reminder_none _ _ _ _ F)|].
    cbn [trace reminders]. repeat split.
Qed.

(** ** Delivering twice *)

Lemma sent_at_middle (l1 l2 : list Reminder) (r : Reminder)
    (js : list Job) (fs : list (str * list N)) (tr : list Call) :
  sent_at (length l1) (mkWorld (l1 ++ r :: l2) js fs tr) = Some (is_sent r).
Proof.
  unfold sent_at. cbn [reminders].
  rewrite nth_error_app2 by apply Nat.le_refl.
  rewrite Nat.sub_diag. reflexivity.
Qed.

Lemma sent_at_elsewhere (l1 l2 : list Reminder) (r r' : Reminder) (i : nat)
    (js js' : list Job) (fs fs' : list (str * list N)) (tr tr' : list Call) :
  i <> length l1 ->
  sent_at i (mkWorld (l1 ++ r :: l2) js fs tr)
  = sent_at i (mkWorld (l1 ++ r' :: l2) js' fs' tr').
Proof.
  intros NE. unfold sent_at. cbn [reminders].
  destruct (Nat.lt_ge_cases i (length l1)) as [L|G].
  - rewrite !nth_error_app1 by exact L. reflexivity.
  - rewrite !nth_error_app2 by exact G.
    destruct (i - length l1)%nat as [|n] eqn:D; [lia | reflexivity].
Qed.

(** C4, as the claim states it, fails: the second run is no no-op.  With
    Bob's row as the one unsent match, the second call of the callback
    leaves a world that differs from the one it started in: it has pushed
    the reminder to the user a second time. *)
Lemma second_delivery_pushes_again :
  let deliver := send_reminder (lit "U1") bob_time (lit "Meeting with Bob") in
  let w1 := world_of (deliver bob_world) in
  let w2 := world_of (deliver w1) in
  filter (matches_unsent (lit "U1") bob_time (lit "Meeting with Bob"))
    (reminders bob_world)
  = [mkReminder 1 (lit "U1") bob_time (lit "Meeting with Bob") false]
  /\ w2 <> w1
  /\ trace w2 =
     trace w1 ++
       [ PushMessage (lit "U1") (lit "Reminder: 15:00 2024-06-05 - Meeting with Bob");
         QueryFirst (lit "U1") bob_time (lit "Meeting with Bob") ].
Proof.
  cbv zeta. split; [reflexivity|]. split; [|reflexivity].
  intros E. apply (f_equal (fun w => length (trace w))) in E.
  vm_compute in E. discriminate E.
Qed.

(** C4, amended. In a table with its primary key and exactly one unsent
    row matching the three arguments, two runs of the callback flip
    [is_sent] of that row from false to true once, in the first run, and
    change no other row; the second run finds no unsent match and leaves the
    table as it is, but it is no no-op: it pushes the message again. *)
Theorem delivering_twice_marks_once
    (w : World) (user : str) (time : datetime) (content : str) (r : Reminder) :
  primary_key (reminders w) ->
  filter (matches_unsent user time content) (reminders w) = [r] ->
  exists l1 l2 w1 w2,
    reminders w = l1 ++ r :: l2
    /\ is_sent r = false
    /\ send_reminder user time content w = Returned tt w1
    /\ reminders w1 =
       l1 ++ mkReminder (id r) (user_id r) (event_time r) (event_content r) true :: l2
    /\ find (matches_unsent user time content) (reminders w1) = None
    /\ send_reminder user time content w1 = Returned tt w2
    /\ reminders w2 = reminders w1
    /\ trace w2 =
       trace w1 ++
         [ PushMessage user (lit "Reminder: " ++ strftime time ++ lit " - " ++ content);
           QueryFirst user time content ]
    /\ forall i, flips i [w; w1; w2] = if Nat.eqb i (length l1) then 1%nat else 0%nat.
Proof.
  intros K Only.
  assert (Fd : find (matches_unsent user time content) (reminders w) = Some r)
    by (rewrite find_is_first_filtered, Only; reflexivity).
  destruct (find_first _ _ Fd) as (l1 & l2 & E & R & F1).
  assert (F2 : Forall (fun x => matches_unsent user time content x = false) l2).
  { rewrite E, filter_app in Only. cbn [filter] in Only. rewrite R in Only.
    rewrite (@filter_all_false _ _ _ F1) in Only. cbn [app] in Only.
    injection Only as Only. apply filter_nil_all_false, Only. }
  assert (U : is_sent r = false).
  { unfold matches_unsent in R. rewrite !andb_true_iff in R.
    destruct R as [_ R]. destruct (is_sent r); [discriminate R | reflexivity]. }
  assert (M : mark_sent (id r) (reminders w) = l1 ++ set_sent r :: l2)
    by (rewrite E in K |- *; apply (mark_sent_one _ _ _ K)).
  assert (Fn : find (matches_unsent user time content) (l1 ++ set_sent r :: l2) = None).
  { apply find_all_false, Forall_app. split; [exact F1|].
    constructor; [apply set_sent_not_unsent | exact F2]. }
  exists l1, l2. eexists. eexists.
  split; [exact E|]. split; [exact U|].
  split; [apply (send_reminder_found _ _ _ _ Fd)|]. rewrite M.
  split; [reflexivity|]. split; [exact Fn|].
  split; [apply send_reminder_none; exact Fn|].
  split; [reflexivity|]. split; [reflexivity|].
  intros i. destruct w as [rows js fs tr]. cbn [reminders jobs files trace] in *.
  subst rows. cbn [flips].
  destruct (Nat.eqb_spec i (length l1)) as [->|NE].
  - rewrite !sent_at_middle. cbn [set_sent is_sent]. rewrite U. reflexivity.
  - rewrite (sent_at_elsewhere l1 l2 r (set_sent r) js js fs fs tr
               (tr ++ [PushMessage user (reminder_text time content);
                       QueryFirst user time content;
                       UpdateCommit (id r)]) NE).
    rewrite (sent_at_elsewhere l1 l2 (set_sent r) (set_sent r) js js fs fs
               (tr ++ [PushMessage user (reminder_text time content);
                       QueryFirst user time content;
                       UpdateCommit (id r)])
               ((tr ++ [PushMessage user (reminder_text time content);
                        QueryFirst user time content;
                        UpdateCommit (id r)]) ++
                [PushMessage user (reminder_text time content);
                 QueryFirst user time content]) NE).
    match goal with
    | |- context [sent_at i ?x] => destruct (sent_at i x) as [[|]|]; reflexivity
    end.
Qed.

Lemma delivering_twice_witness :
  exists l1 l2 w1 w2,
    reminders bob_world
    = l1 ++ mkReminder 1 (lit "U1") bob_time (lit "Meeting with Bob") false :: l2
    /\ false = false
    /\ send_reminder (lit "U1") bob_time (lit "Meeting with Bob") bob_world
       = Returned tt w1
    /\ reminders w1 =
       l1 ++ mkReminder 1 (lit "U1") bob_time (lit "Meeting with Bob") true :: l2
    /\ find (matches_unsent (lit "U1") bob_time (lit "Meeting with Bob"))
         (reminders w1) = None
    /\ send_reminder (lit "U1") bob_time (lit "Meeting with Bob") w1 = Returned tt w2
    /\ reminders w2 = reminders w1
    /\ trace w2 =
       trace w1 ++
         [ PushMessage (lit "U1")
             (lit "Reminder: " ++ strftime bob_time ++ lit " - " ++ lit "Meeting with Bob");
           QueryFirst (lit "U1") bob_time (lit "Meeting with Bob") ]
    /\ forall i, flips i [bob_world; w1; w2]
                 = if Nat.eqb i (length l1) then 1%nat else 0%nat.
Proof.
  apply (@delivering_twice_marks_once bob_world (lit "U1") bob_time
           (lit "Meeting with Bob")
           (mkReminder 1 (lit "U1") bob_time (lit "Meeting with Bob") false)).
  - vm_compute. repeat constructor. intros [].
  - reflexivity.
Defined.

(** ** The life of the sent flag *)

Lemma run_consecutive (ws : list World) :
  Run ws ->
  forall j w w',
    nth_error ws j = Some w -> nth_error ws (S j) = Some w' -> step w w'.
Proof.
  induction 1 as [w0|w0 w1 ws S R IH]; intros j w w' Hj Hk.
  - destruct j; discriminate Hk.
  - destruct j as [|j].
    + cbn in Hj, Hk. injection Hj as <-. injection Hk as <-. exact S.
    + apply (IH j); assumption.
Qed.

Lemma sent_stays_from_head (ws : list World) (i : nat) :
  Run ws ->
  forall k w w',
    nth_error ws 0 = Some w -> nth_error ws k = Some w' ->
    sent_at i w = Some true -> sent_at i w' = Some true.
Proof.
  induction 1 as [w0|w0 w1 ws S R IH]; intros k w w' H0 Hk T.
  - cbn in H0. injection H0 as <-.
    destruct k as [|[|k]]; cbn in Hk; try discriminate Hk.
    injection Hk as <-. exact T.
  - cbn in H0. injection H0 as <-.
    destruct k as [|k]; [cbn in Hk; injection Hk as <-; exact T|].
    apply (IH k _ _ eq_refl Hk).
    pose proof (step_allowed i S) as A. rewrite T in A.
    destruct (sent_at i w1) as [[|]|]; [reflexivity | contradiction | contradiction].
Qed.

Lemma sent_stays (ws : list World) (i : nat) :
  Run ws ->
  forall j k w w',
    (j <= k)%nat -> nth_error ws j = Some w -> nth_error ws k = Some w' ->
    sent_at i w = Some true -> sent_at i w' = Some true.
Proof.
  intros R. induction R as [w0|w0 w1 ws S R IH]; intros j k w w' L Hj Hk T.
  - apply (sent_stays_from_head i (run_start w0) k (w := w)); try assumption.
    destruct j as [|[|j]]; cbn in Hj; try discriminate Hj. exact Hj.
  - destruct j as [|j].
    + apply (sent_stays_from_head i (run_step S R) k (w := w)); assumption.
    + destruct k as [|k]; [lia|].
      apply (IH j k w); [lia | exact Hj | exact Hk | exact T].
Qed.

Lemma flips_cons (i : nat) (w w' : World) (ws : list World) :
  flips i (w :: w' :: ws) =
  match sent_at i w, sent_at i w' with
  | Some false, Some true => S (flips i (w' :: ws))
  | _, _ => flips i (w' :: ws)
  end.
Proof. reflexivity. Qed.

Lemma flips_bounded (ws : list World) (i : nat) :
  Run ws ->
  (flips i ws <= 1)%nat
  /\ (forall w rest, ws = w :: rest -> sent_at i w = Some true -> flips i ws = 0%nat).
Proof.
  induction 1 as [w0|w0 w1 ws S R [IH1 IH2]].
  - split; [cbn; lia | intros; reflexivity].
  - pose proof (step_allowed i S) as A.
    rewrite flips_cons.
    destruct (sent_at i w0) as [[|]|] eqn:E0;
      destruct (sent_at i w1) as [[|]|] eqn:E1; try contradiction.
    + split; [exact IH1|]. intros w rest _ _. apply (IH2 w1 ws eq_refl E1).
    + split; [rewrite (IH2 w1 ws eq_refl E1); lia|].
      intros w rest Eq T. injection Eq as <- _. congruence.
    + split; [exact IH1|].
      intros w rest Eq T. injection Eq as <- _. congruence.
    + split; [exact IH1|].
      intros w rest Eq T. injection Eq as <- _. congruence.
    + split; [exact IH1|].
      intros w rest Eq T. injection Eq as <- _. congruence.
Qed.

(** C5. Along every run of the program's operations, for the row at every
    position of the table: the row is unsent when it first appears; once
    its flag is true it is true in every later world; and the flag goes from
    false to true at most once. *)
Theorem sent_flag_lifecycle (ws : list World) (i : nat) :
  Run ws ->
  (forall j w w',
     nth_error ws j = Some w -> nth_error ws (S j) = Some w' ->
     sent_at i w = None -> sent_at i w' = None \/ sent_at i w' = Some false)
  /\ (forall j k w w',
        (j <= k)%nat -> nth_error ws j = Some w -> nth_error ws k = Some w' ->
        sent_at i w = Some true -> sent_at i w' = Some true)
  /\ (flips i ws <= 1)%nat.
Proof.
  intros R. split; [|split].
  - intros j w w' Hj Hk N.
    pose proof (step_allowed i (run_consecutive R j Hj Hk)) as A.
    rewrite N in A.
    destruct (sent_at i w') as [[|]|]; [contradiction | right | left]; reflexivity.
  - apply sent_stays, R.
  - apply flips_bounded, R.
Qed.

Lemma bob_run_is_a_run : Run bob_run.
Proof.
  unfold bob_run.
  apply run_step; [apply step_webhook|].
  apply run_step; [apply step_job|].
  apply run_step; [apply step_send|].
  apply run_start.
Defined.

Lemma sent_flag_lifecycle_witness :
  Run bob_run
  /\ map (sent_at 0) bob_run = [None; Some false; Some true; Some true]
  /\ (flips 0 bob_run <= 1)%nat.
Proof.
  split; [exact bob_run_is_a_run|]. split; [reflexivity|].
  exact (proj2 (proj2 (@sent_flag_lifecycle bob_run 0%nat bob_run_is_a_run))).
Defined.

(** * Further properties *)

(** ** Lines and white space *)

Lemma length_split (sep : char) (s : str) :
  length (split sep s) = S (count_char sep s).
Proof.
  unfold count_char. induction s as [|c s IH]; [reflexivity|].
  cbn [split filter]. destruct (char_eqb c sep).
  - cbn [length]. rewrite IH. reflexivity.
  - pose proof (split_not_nil sep s) as NE.
    destruct (split sep s) as [|p ps]; [contradiction|].
    cbn [length] in *. exact IH.
Qed.

Lemma lstrip_spaces (a s : str) :
  all_space a = true -> lstrip (a ++ s) = lstrip s.
Proof.
  induction a as [|x a IH]; cbn [all_space forallb app lstrip]; [reflexivity|].
  intros H. apply andb_true_iff in H. destruct H as [X A].
  rewrite X. apply IH, A.
Qed.

Lemma lstrip_app (s b : str) :
  lstrip (s ++ b) = if all_space s then lstrip b else lstrip s ++ b.
Proof.
  induction s as [|x s IH]; cbn [all_space forallb app lstrip]; [reflexivity|].
  destruct (isspace x); cbn [andb]; [exact IH | reflexivity].
Qed.

Lemma lstrip_all_space (s : str) : all_space s = true -> lstrip s = [].
Proof.
  intros A. rewrite <- (app_nil_r s), lstrip_spaces by exact A. reflexivity.
Qed.

Lemma all_space_rev (s : str) : all_space (rev s) = all_space s.
Proof.
  unfold all_space. induction s as [|x s IH]; [reflexivity|].
  cbn [rev forallb]. rewrite forallb_app, IH. cbn [forallb].
  rewrite andb_true_r. apply andb_comm.
Qed.

Lemma rstrip_spaces (s b : str) :
  all_space b = true -> rstrip (s ++ b) = rstrip s.
Proof.
  intros B. unfold rstrip. rewrite rev_app_distr, lstrip_spaces; [reflexivity|].
  rewrite all_space_rev. exact B.
Qed.

Lemma rstrip_all_space (s : str) : all_space s = true -> rstrip s = [].
Proof.
  intros A. unfold rstrip. rewrite lstrip_all_space; [reflexivity|].
  rewrite all_space_rev. exact A.
Qed.

(** White space around a text does not survive [strip]. *)
Lemma strip_padding (a s b : str) :
  all_space a = true -> all_space b = true -> strip (a ++ s ++ b) = strip s.
Proof.
  intros A B. unfold strip. rewrite lstrip_spaces by exact A.
  rewrite lstrip_app. destruct (all_space s) eqn:S.
  - rewrite (lstrip_all_space _ B), (lstrip_all_space _ S). reflexivity.
  - apply rstrip_spaces, B.
Qed.

(** ** The extraction in the handler *)

(** The handler sees the completion through [strip] only. *)
Lemma handle_through_strip (event : MessageEvent) (ans : Answers)
    (content : str) (w : World) :
  strip content = strip (completion_content ans) ->
  handle_audio_message event (with_completion ans content) w
  = handle_audio_message event ans w.
Proof.
  intros E. destruct ans as [chunks name text completion].
  unfold with_completion, handle_audio_message.
  cbn [iter_content temp_name transcription_text completion_content] in *.
  run_prog. rewrite E. reflexivity.
Qed.

(** X1. White space around the model's answer, blank lines included, makes
    no difference: the handler ends in the same way and leaves the same
    world as for the bare answer. *)
Theorem padding_makes_no_difference
    (event : MessageEvent) (ans : Answers) (a b : str) (w : World) :
  all_space a = true -> all_space b = true ->
  handle_audio_message event
    (with_completion ans (a ++ completion_content ans ++ b)) w
  = handle_audio_message event ans w.
Proof.
  intros A B. apply handle_through_strip, strip_padding; assumption.
Qed.

Lemma padding_makes_no_difference_witness :
  handle_audio_message bob_event padded_answers empty_world
  = handle_audio_message bob_event bob_answers empty_world.
Proof.
  apply (@padding_makes_no_difference bob_event bob_answers
           [newline; 32%N] [32%N; newline; 9%N] empty_world);
    reflexivity.
Defined.

Lemma two_lines_iff_one_newline (s : str) :
  (exists t c, split newline s = [t; c]) <-> count_char newline s = 1%nat.
Proof.
  split.
  - intros (t & c & E). pose proof (length_split newline s) as L.
    rewrite E in L. cbn in L. congruence.
  - intros C. pose proof (length_split newline s) as L. rewrite C in L.
    destruct (two_or_not (split newline s)) as [H|H]; [exact H | contradiction].
Qed.

(** X2. The handler takes the apology branch exactly when the stripped
    answer does not hold exactly one newline: with no newline, or with two
    or more, the user gets the apology; with exactly one the handler goes on
    to parse the time and never apologises. *)
Theorem apology_iff_not_one_newline
    (event : MessageEvent) (ans : Answers) (w : World) :
  handle_audio_message event ans w = Returned tt (apology_world event ans w)
  <-> count_char newline (strip (completion_content ans)) <> 1%nat.
Proof.
  split.
  - intros H C. apply two_lines_iff_one_newline in C. destruct C as (t & c & E).
    destruct (strptime t) as [dt|] eqn:P.
    + rewrite (handle_accepted event ans w E P) in H.
      apply (f_equal (fun o => length (reminders (world_of o)))) in H.
      cbn [world_of reminders apology_world] in H.
      rewrite length_app in H. cbn in H. lia.
    + rewrite (handle_parse_failure event ans w E P) in H. discriminate H.
  - intros C. apply handle_not_two. intros L. apply C.
    pose proof (length_split newline (strip (completion_content ans))) as S.
    congruence.
Qed.

(** ** What [strptime] accepts *)

Lemma in_re_bind {A B} (p : Re A) (k : A -> Re B) (s : str) (b : B) (r' : str) :
  In (b, r') (re_bind p k s) <->
  exists a r, In (a, r) (p s) /\ In (b, r') (k a r).
Proof.
  unfold re_bind. rewrite in_flat_map. split.
  - intros ([a r] & I & J). exists a, r. split; assumption.
  - intros (a & r & I & J). exists (a, r). split; assumption.
Qed.

Lemma consumes_ret {A} (a : A) : Consumes (re_ret a).
Proof. intros s x rest [E|[]]. injection E as _ <-. exists []. reflexivity. Qed.

Lemma consumes_char (c : char) : Consumes (re_char c).
Proof.
  intros [|x s] a rest I; cbn in I; [contradiction|].
  destruct (char_eqb x c); [|contradiction].
  destruct I as [E|[]]. injection E as _ <-. exists [x]. reflexivity.
Qed.

Lemma consumes_range (lo hi : Z) : Consumes (re_range lo hi).
Proof.
  intros [|x s] a rest I; cbn in I; [contradiction|].
  destruct (_ && _); [|contradiction].
  destruct I as [E|[]]. injection E as _ <-. exists [x]. reflexivity.
Qed.

Lemma consumes_digit : Consumes re_digit.
Proof.
  intros [|x s] a rest I; cbn in I; [contradiction|].
  destruct (decimal x); [|contradiction].
  destruct I as [E|[]]. injection E as _ <-. exists [x]. reflexivity.
Qed.

Lemma consumes_spaces : Consumes re_spaces.
Proof.
  intros s. induction s as [|x s IH]; intros a rest I; cbn [re_spaces] in I;
    [contradiction|].
  destruct (isspace x); [|contradiction].
  apply in_app_or in I. destruct I as [I|[E|[]]].
  - destruct (IH _ _ I) as [pre ->]. exists (x :: pre). reflexivity.
  - injection E as _ <-. exists [x]. reflexivity.
Qed.

Lemma consumes_alt {A} (p q : Re A) :
  Consumes p -> Consumes q -> Consumes (re_alt p q).
Proof.
  intros P Q s a rest I. apply in_app_or in I.
  destruct I as [I|I]; [apply (P _ _ _ I) | apply (Q _ _ _ I)].
Qed.

Lemma consumes_bind {A B} (p : Re A) (k : A -> Re B) :
  Consumes p -> (forall a, Consumes (k a)) -> Consumes (re_bind p k).
Proof.
  intros P K s b rest I. apply in_re_bind in I. destruct I as (a & r & I & J).
  destruct (P _ _ _ I) as [pre ->]. destruct (K a _ _ _ J) as [pre' ->].
  exists (pre ++ pre'). apply app_assoc.
Qed.

Lemma ascii_digit_is_decimal (x : char) :
  0 <= Z.of_N x - 48 <= 9 -> decimal x <> None.
Proof.
  intros B. rewrite <- (N2Z.id x). remember (Z.of_N x) as z eqn:Ez. clear Ez.
  each_value z 48 57; discriminate.
Qed.

Lemma range_takes_a_digit (lo hi : Z) (s : str) (v : Z) (rest : str) :
  0 <= lo -> hi <= 9 -> In (v, rest) (re_range lo hi s) ->
  exists c, s = c :: rest /\ decimal c <> None.
Proof.
  intros L H I. destruct s as [|x s]; cbn in I; [contradiction|].
  destruct (_ && _) eqn:R; [|contradiction].
  destruct I as [E|[]]. injection E as _ <-.
  apply andb_true_iff in R. rewrite !Z.leb_le in R.
  exists x. split; [reflexivity|]. apply ascii_digit_is_decimal. lia.
Qed.

Lemma digit_takes_a_digit (s : str) (v : Z) (rest : str) :
  In (v, rest) (re_digit s) -> exists c, s = c :: rest /\ decimal c <> None.
Proof.
  intros I. destruct s as [|x s]; cbn in I; [contradiction|].
  destruct (decimal x) eqn:D; [|contradiction].
  destruct I as [E|[]]. injection E as _ <-.
  exists x. split; [reflexivity | congruence].
Qed.

Lemma ends_range (lo hi : Z) : 0 <= lo -> hi <= 9 -> EndsInDigit (re_range lo hi).
Proof.
  intros L H s a rest I. destruct (@range_takes_a_digit _ _ _ _ _ L H I) as (c & -> & D).
  exists [], c. split; [reflexivity | exact D].
Qed.

Lemma ends_digit : EndsInDigit re_digit.
Proof.
  intros s a rest I. destruct (@digit_takes_a_digit _ _ _ I) as (c & -> & D).
  exists [], c. split; [reflexivity | exact D].
Qed.

Lemma ends_alt {A} (p q : Re A) :
  EndsInDigit p -> EndsInDigit q -> EndsInDigit (re_alt p q).
Proof.
  intros P Q s a rest I. apply in_app_or in I.
  destruct I as [I|I]; [apply (P _ _ _ I) | apply (Q _ _ _ I)].
Qed.

Lemma ends_bind {A B} (p : Re A) (k : A -> Re B) :
  Consumes p -> (forall a, EndsInDigit (k a)) -> EndsInDigit (re_bind p k).
Proof.
  intros P K s b rest I. apply in_re_bind in I. destruct I as (a & r & I & J).
  destruct (P _ _ _ I) as [pre ->]. destruct (K a _ _ _ J) as (pre' & c & -> & D).
  exists (pre ++ pre'), c. split; [apply app_assoc | exact D].
Qed.

Lemma ends_then_ret {A B} (p : Re A) (f : A -> B) :
  EndsInDigit p -> EndsInDigit (re_bind p (fun x => re_ret (f x))).
Proof.
  intros P s b rest I. apply in_re_bind in I. destruct I as (a & r & I & [E|[]]).
  injection E as _ <-. apply (P _ _ _ I).
Qed.

Lemma starts_char (c : char) : decimal c <> None -> StartsWithDigit (re_char c).
Proof.
  intros D [|x s] a rest I; cbn in I; [contradiction|].
  destruct (char_eqb x c) eqn:E; [|contradiction].
  apply char_eqb_eq in E. subst x. exists c, s. split; [reflexivity | exact D].
Qed.

Lemma starts_range (lo hi : Z) :
  0 <= lo -> hi <= 9 -> StartsWithDigit (re_range lo hi).
Proof.
  intros L H s a rest I. destruct (@range_takes_a_digit _ _ _ _ _ L H I) as (c & -> & D).
  exists c, rest. split; [reflexivity | exact D].
Qed.

Lemma starts_digit : StartsWithDigit re_digit.
Proof.
  intros s a rest I. destruct (@digit_takes_a_digit _ _ _ I) as (c & -> & D).
  exists c, rest. split; [reflexivity | exact D].
Qed.

Lemma starts_alt {A} (p q : Re A) :
  StartsWithDigit p -> StartsWithDigit q -> StartsWithDigit (re_alt p q).
Proof.
  intros P Q s a rest I. apply in_app_or in I.
  destruct I as [I|I]; [apply (P _ _ _ I) | apply (Q _ _ _ I)].
Qed.

Lemma starts_bind {A B} (p : Re A) (k : A -> Re B) :
  StartsWithDigit p -> StartsWithDigit (re_bind p k).
Proof.
  intros P s b rest I. apply in_re_bind in I. destruct I as (a & r & I & _).
  apply (P _ _ _ I).
Qed.

Create HintDb regex.

#[local] Hint Resolve consumes_ret consumes_char consumes_range consumes_digit
  consumes_spaces : regex.
#[local] Hint Extern 1 (Consumes (re_alt _ _)) => apply consumes_alt : regex.
#[local] Hint Extern 1 (Consumes (re_bind _ _)) =>
  apply consumes_bind; [|intros ?] : regex.

Lemma consumes_H : Consumes re_H.
Proof. unfold re_H. auto 20 with regex. Qed.

Lemma consumes_M : Consumes re_M.
Proof. unfold re_M. auto 20 with regex. Qed.

Lemma consumes_Y : Consumes re_Y.
Proof. unfold re_Y. auto 20 with regex. Qed.

Lemma consumes_m : Consumes re_m.
Proof. unfold re_m. auto 20 with regex. Qed.

Lemma ends_d : EndsInDigit re_d.
Proof.
  unfold re_d.
  repeat apply ends_alt;
    try (apply ends_range; lia);
    (apply ends_bind; [auto with regex | intros ?]);
    apply ends_then_ret;
    first [apply ends_range; lia | apply ends_digit].
Qed.

Lemma starts_H : StartsWithDigit re_H.
Proof.
  unfold re_H. repeat apply starts_alt.
  - apply starts_bind, starts_char. discriminate.
  - apply starts_bind, starts_range; lia.
  - apply starts_digit.
Qed.

Lemma format_regex_ends : EndsInDigit format_regex.
Proof.
  unfold format_regex.
  apply ends_bind; [apply consumes_H | intros ?].
  apply ends_bind; [apply consumes_char | intros ?].
  apply ends_bind; [apply consumes_M | intros ?].
  apply ends_bind; [apply consumes_spaces | intros ?].
  apply ends_bind; [apply consumes_Y | intros ?].
  apply ends_bind; [apply consumes_char | intros ?].
  apply ends_bind; [apply consumes_m | intros ?].
  apply ends_bind; [apply consumes_char | intros ?].
  apply ends_then_ret, ends_d.
Qed.

Lemma format_regex_starts : StartsWithDigit format_regex.
Proof. unfold format_regex. apply starts_bind, starts_H. Qed.

Lemma strptime_first_match (s : str) (dt : datetime) :
  strptime s = Some dt ->
  exists H M Y m d,
    In ((H, M, Y, m, d), []) (format_regex s)
    /\ make_datetime Y m d H M 0 0 = Some dt.
Proof.
  unfold strptime. destruct (format_regex s) as [|[[[[[H M] Y] m] d] rest] others];
    [discriminate|].
  destruct rest; [|discriminate]. intros V.
  exists H, M, Y, m, d. split; [left; reflexivity | exact V].
Qed.

Lemma space_not_decimal (c : char) : isspace c = true -> decimal c = None.
Proof.
  unfold isspace. intros H. apply existsb_exists in H.
  destruct H as (x & I & E). apply char_eqb_eq in E. subst x.
  unfold whitespace in I. cbn [In] in I.
  repeat (destruct I as [<-|I]; [reflexivity|]). contradiction.
Qed.

(** X3. [strptime] accepts a text only if its first and its last character
    are decimal digits: a text with anything before the hour or after the
    day, a blank or a carriage return included, is rejected. *)
Theorem strptime_digits_at_both_ends (s : str) (dt : datetime) :
  strptime s = Some dt ->
  (exists c s', s = c :: s' /\ decimal c <> None)
  /\ (exists pre c, s = pre ++ [c] /\ decimal c <> None).
Proof.
  intros P. destruct (strptime_first_match _ P) as (H & M & Y & m & d & I & _).
  split; [apply (format_regex_starts _ _ _ I) | apply (format_regex_ends _ _ _ I)].
Qed.

Lemma strptime_digits_at_both_ends_witness :
  (exists c s', lit "5:3 2024-6-5" = c :: s' /\ decimal c <> None)
  /\ (exists pre c, lit "5:3 2024-6-5" = pre ++ [c] /\ decimal c <> None).
Proof.
  apply (@strptime_digits_at_both_ends (lit "5:3 2024-6-5")
           (mkDatetime 2024 6 5 5 3 0 0)).
  reflexivity.
Defined.

Lemma strptime_rejects_trailing_space (t : str) (ch : char) :
  isspace ch = true -> strptime (t ++ [ch]) = None.
Proof.
  intros S. destruct (strptime (t ++ [ch])) as [dt|] eqn:P; [|reflexivity].
  destruct (strptime_first_match _ P) as (H & M & Y & m & d & I & _).
  destruct (format_regex_ends _ _ _ I) as (pre & c & E & D).
  apply app_inj_tail in E. destruct E as [_ <-].
  rewrite (space_not_decimal _ S) in D. contradiction.
Qed.

(** X4. A time line that ends in white space makes the handler raise: when
    the model ends its first line with a carriage return and a newline, or
    with a blank before the newline, the handler raises [ValueError] and the
    user gets no reply. *)
Theorem trailing_space_on_time_line_raises
    (event : MessageEvent) (ans : Answers) (w : World)
    (t c : str) (ch : char) :
  split newline (strip (completion_content ans)) = [t ++ [ch]; c] ->
  isspace ch = true ->
  handle_audio_message event ans w =
  Raised ValueError
    (mkWorld (reminders w) (jobs w) (files w ++ [audio_file ans])
             (trace w ++ preamble event ans)).
Proof.
  intros E S. apply (handle_parse_failure event ans w E).
  apply strptime_rejects_trailing_space, S.
Qed.

Lemma trailing_space_on_time_line_witness :
  handle_audio_message bob_event crlf_answers empty_world =
  Raised ValueError
    (mkWorld [] [] [audio_file crlf_answers] (preamble bob_event crlf_answers)).
Proof.
  apply (@trailing_space_on_time_line_raises bob_event crlf_answers empty_world
           (lit "15:00 2024-06-05") (lit "Meeting with Bob") 13%N);
    reflexivity.
Defined.

(** ** More on what one request does *)

Lemma fold_max_app (l : list Z) (x : Z) :
  fold_right Z.max 0 (l ++ [x]) = Z.max (fold_right Z.max 0 l) x.
Proof.
  induction l as [|y l IH]; cbn [app fold_right]; [lia|]. rewrite IH. lia.
Qed.

Lemma fold_max_nonneg (l : list Z) : 0 <= fold_right Z.max 0 l.
Proof. induction l as [|y l IH]; cbn [fold_right]; lia. Qed.

Lemma next_id_after_insert (rows : list Reminder) (user : str)
    (time : datetime) (content : str) (sent : bool) :
  next_id (rows ++ [mkReminder (next_id rows) user time content sent])
  = next_id rows + 1.
Proof.
  unfold next_id. rewrite map_app. cbn [map id]. rewrite fold_max_app.
  pose proof (fold_max_nonneg (map id rows)). lia.
Qed.

(** X5. Nothing stands in the way of duplicates: two requests of one user
    whose answers extract to the same time and content leave two rows, equal
    but for their consecutive keys, both unsent, and two equal jobs. *)
Theorem equal_requests_are_stored_twice
    (event : MessageEvent) (ans1 ans2 : Answers) (w : World)
    (t1 t2 c : str) (dt : datetime) :
  split newline (strip (completion_content ans1)) = [t1; c] ->
  strptime t1 = Some dt ->
  split newline (strip (completion_content ans2)) = [t2; c] ->
  strptime t2 = Some dt ->
  let w1 := world_of (handle_audio_message event ans1 w) in
  let w2 := world_of (handle_audio_message event ans2 w1) in
  reminders w2 =
    reminders w ++
      [ mkReminder (next_id (reminders w)) (source_user_id event) dt c false;
        mkReminder (next_id (reminders w) + 1) (source_user_id event) dt c false ]
  /\ jobs w2 =
     jobs w ++ [ mkJob dt (source_user_id event, dt, c);
                 mkJob dt (source_user_id event, dt, c) ].
Proof.
  intros E1 P1 E2 P2. cbv zeta.
  rewrite (handle_accepted event ans1 w E1 P1). cbn [world_of].
  rewrite (handle_accepted event ans2 _ E2 P2). cbn [world_of reminders jobs].
  unfold new_row, new_job. cbn [reminders].
  rewrite next_id_after_insert, <- !app_assoc. split; reflexivity.
Qed.

Lemma equal_requests_witness :
  let w1 := world_of (handle_audio_message bob_event bob_answers empty_world) in
  let w2 := world_of (handle_audio_message bob_event padded_answers w1) in
  reminders w2 =
    [ mkReminder 1 (lit "U1") bob_time (lit "Meeting with Bob") false;
      mkReminder 2 (lit "U1") bob_time (lit "Meeting with Bob") false ]
  /\ jobs w2 =
     [ mkJob bob_time (lit "U1", bob_time, lit "Meeting with Bob");
       mkJob bob_time (lit "U1", bob_time, lit "Meeting with Bob") ].
Proof.
  apply (@equal_requests_are_stored_twice bob_event bob_answers padded_answers
           empty_world (lit "15:00 2024-06-05") (lit "15:00 2024-06-05")
           (lit "Meeting with Bob") bob_time);
    reflexivity.
Defined.

Lemma without_fresh (path : str) (fs : list (str * list N)) :
  ~ In path (map fst fs) -> without path fs = fs.
Proof.
  unfold without. induction fs as [|[p b] fs IH]; cbn [map fst filter In];
    [reflexivity|].
  intros N. destruct (str_eqb p path) eqn:E.
  - apply str_eqb_eq in E. exfalso. apply N. left. exact E.
  - cbn [negb]. rewrite IH; [reflexivity|]. intros I. apply N. right. exact I.
Qed.

Lemma without_added (path : str) (bytes : list N) (fs : list (str * list N)) :
  ~ In path (map fst fs) -> without path (fs ++ [(path, bytes)]) = fs.
Proof.
  intros N. unfold without. rewrite filter_app. fold (without path fs).
  rewrite (without_fresh _ _ N). cbn [filter fst]. rewrite str_eqb_refl.
  cbn [negb]. apply app_nil_r.
Qed.

(** X6. With a name for the temporary file that no file has yet, a request
    that returns leaves the files exactly as it found them; a request that
    raises leaves one file more, which holds the chunks of the audio in
    order. *)
Theorem files_after_a_request
    (event : MessageEvent) (ans : Answers) (w : World) :
  ~ In (temp_name ans) (map fst (files w)) ->
  let o := handle_audio_message event ans w in
  files (world_of o) =
    if returned o then files w
    else files w ++ [(temp_name ans, concat (iter_content ans))].
Proof.
  intros Fresh. cbv zeta.
  destruct (handle_cases event ans) as [NE|[(t & c & dt & E & P)|(t & c & E & P)]].
  - rewrite (handle_not_two event ans w NE). cbn [returned world_of files].
    apply without_added, Fresh.
  - rewrite (handle_accepted event ans w E P). cbn [returned world_of files].
    apply without_added, Fresh.
  - rewrite (handle_parse_failure event ans w E P). reflexivity.
Qed.

Lemma files_after_a_request_witness :
  files (world_of (handle_audio_message bob_event bob_answers empty_world)) = []
  /\ files (world_of (handle_audio_message bob_event vague_answers empty_world))
     = [(lit "/tmp/tmp2.m4a", [1; 2; 3]%N)].
Proof.
  split.
  - apply (@files_after_a_request bob_event bob_answers empty_world).
    intros [].
  - apply (@files_after_a_request bob_event vague_answers empty_world).
    intros [].
Defined.

Lemma new_calls_app (w : World) (rs : list Reminder) (js : list Job)
    (fs : list (str * list N)) (calls : list Call) :
  new_calls w (mkWorld rs js fs (trace w ++ calls)) = calls.
Proof.
  unfold new_calls. cbn [trace]. rewrite skipn_app, skipn_all, Nat.sub_diag.
  reflexivity.
Qed.

(** X7. A request that returns has sent exactly one reply, to the reply
    token of its event; a request that raises has sent none.  Of the other
    calls the handler makes none is a push, a query or an update of the
    table. *)
Theorem one_reply_iff_returned
    (event : MessageEvent) (ans : Answers) (w : World) :
  let o := handle_audio_message event ans w in
  (exists text,
     filter is_reply (new_calls w (world_of o)) =
       if returned o then [ReplyMessage (reply_token event) text] else [])
  /\ forall call, In call (new_calls w (world_of o)) ->
       match call with
       | PushMessage _ _ | QueryFirst _ _ _ | UpdateCommit _ => False
       | _ => True
       end.
Proof.
  cbv zeta.
  destruct (handle_cases event ans) as [NE|[(t & c & dt & E & P)|(t & c & E & P)]].
  - rewrite (handle_not_two event ans w NE). cbn [returned world_of].
    rewrite new_calls_app. split; [exists apology; reflexivity|].
    intros call I. cbn in I.
    repeat (destruct I as [<-|I]; [exact Logic.I|]). contradiction.
  - rewrite (handle_accepted event ans w E P). cbn [returned world_of].
    rewrite new_calls_app. split; [exists (confirmation t c); reflexivity|].
    intros call I. cbn in I.
    repeat (destruct I as [<-|I]; [exact Logic.I|]). contradiction.
  - rewrite (handle_parse_failure event ans w E P). cbn [returned world_of].
    rewrite new_calls_app. split; [exists []; reflexivity|].
    intros call I. cbn in I.
    repeat (destruct I as [<-|I]; [exact Logic.I|]). contradiction.
Qed.

(** ** Rows over a run *)

(** What every operation keeps holds between any two worlds of a run. *)
Lemma run_relates (R : World -> World -> Prop) (ws : list World) :
  (forall w, R w w) ->
  (forall a b c, R a b -> R b c -> R a c) ->
  (forall w w', step w w' -> R w w') ->
  Run ws ->
  forall j k w w',
    (j <= k)%nat -> nth_error ws j = Some w -> nth_error ws k = Some w' -> R w w'.
Proof.
  intros Rrefl Rtrans Rstep HR.
  assert (Head : forall ws, Run ws -> forall k w w',
            nth_error ws 0 = Some w -> nth_error ws k = Some w' -> R w w').
  { clear ws HR. induction 1 as [w0|w0 w1 ws S HR IH]; intros k w w' H0 Hk.
    - cbn in H0. injection H0 as <-.
      destruct k as [|[|k]]; cbn in Hk; try discriminate Hk.
      injection Hk as <-. apply Rrefl.
    - cbn in H0. injection H0 as <-.
      destruct k as [|k]; [cbn in Hk; injection Hk as <-; apply Rrefl|].
      apply (Rtrans _ w1); [apply Rstep, S | apply (IH k); [reflexivity | exact Hk]]. }
  induction HR as [w0|w0 w1 ws S HR IH]; intros j k w w' L Hj Hk.
  - apply (Head _ (run_start w0) k); [|exact Hk].
    destruct j as [|[|j]]; cbn in Hj; try discriminate Hj. exact Hj.
  - destruct j as [|j].
    + apply (Head _ (run_step S HR) k); assumption.
    + destruct k as [|k]; [lia|]. apply (IH j k); [lia | exact Hj | exact Hk].
Qed.

(** X8. Rows are never deleted, moved or rewritten: along every run, a row
    of an earlier world is at the same position in every later world, with
    the same key, user, time and content. *)
Theorem rows_stay_as_created (ws : list World) :
  Run ws ->
  forall j k w w' i r,
    (j <= k)%nat -> nth_error ws j = Some w -> nth_error ws k = Some w' ->
    nth_error (reminders w) i = Some r ->
    exists r',
      nth_error (reminders w') i = Some r'
      /\ id r' = id r /\ user_id r' = user_id r
      /\ event_time r' = event_time r /\ event_content r' = event_content r.
Proof.
  intros HR j k w w' i r L Hj Hk.
  revert r.
  apply (@run_relates
           (fun a b => forall r, nth_error (reminders a) i = Some r ->
              exists r', nth_error (reminders b) i = Some r'
                /\ id r' = id r /\ user_id r' = user_id r
                /\ event_time r' = event_time r
                /\ event_content r' = event_content r)
           ws) with (j := j) (k := k); try assumption.
  - intros a r E. exists r. repeat split. exact E.
  - intros a b c AB BC r E.
    destruct (AB r E) as (r1 & E1 & I1 & U1 & T1 & C1).
    destruct (BC r1 E1) as (r2 & E2 & I2 & U2 & T2 & C2).
    exists r2. repeat split; congruence.
  - intros a b S r E. apply (step_keeps_rows i S E).
Qed.

Lemma rows_stay_as_created_witness :
  exists r',
    nth_error (reminders bob_again) 0 = Some r'
    /\ id r' = 1 /\ user_id r' = lit "U1"
    /\ event_time r' = bob_time /\ event_content r' = lit "Meeting with Bob".
Proof.
  apply (@rows_stay_as_created bob_run bob_run_is_a_run 1%nat 3%nat
           bob_world bob_again 0%nat
           (mkReminder 1 (lit "U1") bob_time (lit "Meeting with Bob") false)).
  - lia.
  - reflexivity.
  - reflexivity.
  - reflexivity.
Defined.

(** X9. The keys of the table stay unique: from a table whose rows have
    different keys, every run leads to tables whose rows have different
    keys. *)
Theorem keys_stay_unique (ws : list World) (w0 : World) :
  Run ws ->
  nth_error ws 0 = Some w0 ->
  primary_key (reminders w0) ->
  forall w, In w ws -> primary_key (reminders w).
Proof.
  intros HR H0 K. apply (run_primary_key HR).
  intros w E. rewrite H0 in E. injection E as <-. exact K.
Qed.

Lemma keys_stay_unique_witness : primary_key (reminders bob_again).
Proof.
  apply (@keys_stay_unique bob_run empty_world bob_run_is_a_run eq_refl).
  - constructor.
  - right. right. right. left. reflexivity.
Defined.

(** ** Pending jobs and unsent rows *)

Lemma remove_nth_split {A} (l1 l2 : list A) (a : A) :
  remove_nth (length l1) (l1 ++ a :: l2) = l1 ++ l2.
Proof.
  unfold remove_nth.
  rewrite firstn_app, firstn_all, Nat.sub_diag. cbn [firstn].
  rewrite app_nil_r.
  change (S (length l1)) with (1 + length l1)%nat.
  rewrite <- skipn_skipn, skipn_app, skipn_all, Nat.sub_diag. reflexivity.
Qed.

Lemma remove_nth_beyond {A} (k : nat) (l : list A) :
  nth_error l k = None -> remove_nth k l = l.
Proof.
  intros E. apply nth_error_None in E. unfold remove_nth.
  rewrite firstn_all2 by exact E. rewrite skipn_all2 by lia. apply app_nil_r.
Qed.

Lemma count_remove_nth {A} (f : A -> bool) (k : nat) (l : list A) (a : A) :
  nth_error l k = Some a ->
  length (filter f (remove_nth k l))
  = (length (filter f l) - (if f a then 1 else 0))%nat.
Proof.
  intros E. apply nth_error_split in E. destruct E as (l1 & l2 & -> & <-).
  rewrite remove_nth_split, !filter_app, !length_app. cbn [filter].
  destruct (f a); cbn [length]; lia.
Qed.

Lemma count_remove_nth_le {A} (f : A -> bool) (k : nat) (l : list A) :
  (length (filter f (remove_nth k l)) <= length (filter f l))%nat.
Proof.
  destruct (nth_error l k) as [a|] eqn:E.
  - rewrite (count_remove_nth f _ _ E). lia.
  - rewrite (remove_nth_beyond _ _ E). lia.
Qed.

Lemma matches_unsent_fields (user : str) (time : datetime) (content : str)
    (r : Reminder) :
  matches_unsent user time content r = true <->
  user_id r = user /\ event_time r = time /\ event_content r = content
  /\ is_sent r = false.
Proof.
  unfold matches_unsent.
  rewrite !andb_true_iff, !str_eqb_eq, datetime_eqb_eq, negb_true_iff. tauto.
Qed.

Lemma job_for_fields (user : str) (time : datetime) (content : str) (j : Job) :
  job_for user time content j = true <-> args j = (user, time, content).
Proof.
  unfold job_for. destruct (args j) as [[u t] c].
  rewrite !andb_true_iff, !str_eqb_eq, datetime_eqb_eq. split.
  - intros [[-> ->] ->]. reflexivity.
  - intros E. injection E as -> -> ->. repeat split.
Qed.

Lemma lose_job_covered (k : nat) (w : World) : covered w -> covered (lose_job k w).
Proof.
  intros C user time content. specialize (C user time content).
  unfold pending, unsent, lose_job in *. cbn [jobs reminders].
  pose proof (count_remove_nth_le (job_for user time content) k (jobs w)). lia.
Qed.

Lemma handle_covered (event : MessageEvent) (ans : Answers) (w : World) :
  covered w -> covered (world_of (handle_audio_message event ans w)).
Proof.
  intros C.
  destruct (handle_cases event ans) as [NE|[(t & c & dt & E & P)|(t & c & E & P)]].
  - rewrite (handle_not_two event ans w NE). exact C.
  - rewrite (handle_accepted event ans w E P).
    intros user time content. specialize (C user time content).
    unfold pending, unsent in *. cbn [world_of jobs reminders].
    rewrite !filter_app, !length_app. cbn [filter].
    replace (job_for user time content (new_job event dt c))
      with (matches_unsent user time content (new_row event dt c w)).
    + destruct (matches_unsent _ _ _ _); cbn [length]; lia.
    + unfold matches_unsent, job_for, new_row, new_job.
      cbn [args user_id event_time event_content is_sent negb].
      apply andb_true_r.
  - rewrite (handle_parse_failure event ans w E P). exact C.
Qed.

Lemma run_job_covered (k : nat) (w : World) :
  primary_key (reminders w) -> covered w -> covered (world_of (run_job k w)).
Proof.
  intros K C.
  destruct (nth_error (jobs w) k) as [j|] eqn:J;
    [|rewrite (run_job_none _ _ J); exact C].
  destruct (args j) as [[u0 t0] c0] eqn:A.
  rewrite (run_job_some _ _ J A).
  set (w1 := mkWorld (reminders w) (remove_nth k (jobs w)) (files w) (trace w)).
  assert (C1 : covered w1) by (apply (lose_job_covered k C)).
  destruct (find (matches_unsent u0 t0 c0) (reminders w1)) as [r|] eqn:F.
  - rewrite (send_reminder_found _ _ _ _ F).
    destruct (find_first _ _ F) as (l1 & l2 & E & R & _).
    cbn [reminders w1] in E.
    assert (M : mark_sent (id r) (reminders w) = l1 ++ set_sent r :: l2)
      by (rewrite E in K |- *; apply (mark_sent_one _ _ _ K)).
    intros user time content. specialize (C user time content).
    unfold pending, unsent in *. cbn [world_of jobs reminders w1].
    rewrite M. rewrite E in C.
    rewrite (count_remove_nth (job_for user time content) _ _ J).
    rewrite !filter_app, !length_app in *. cbn [filter] in *.
    rewrite set_sent_not_unsent.
    destruct (matches_unsent user time content r) eqn:Fr.
    + assert (G : job_for user time content j = true).
      { apply job_for_fields. rewrite A.
        apply matches_unsent_fields in R. apply matches_unsent_fields in Fr.
        destruct R as (<- & <- & <- & _). destruct Fr as (<- & <- & <- & _).
        reflexivity. }
      rewrite G. cbn [length] in *. lia.
    + destruct (job_for user time content j); cbn [length] in *; lia.
  - rewrite (send_reminder_none _ _ _ _ F). exact C1.
Qed.

Lemma program_step_is_step_or_loss (w w' : World) :
  program_step w w' -> step w w' \/ exists k, w' = lose_job k w.
Proof.
  intros [event ans w0|k w0|k w0];
    [left; constructor | left; constructor | right; exists k; reflexivity].
Qed.

Lemma program_step_keeps (w w' : World) :
  program_step w w' ->
  primary_key (reminders w) /\ covered w ->
  primary_key (reminders w') /\ covered w'.
Proof.
  intros S [K C]. split.
  - destruct (program_step_is_step_or_loss S) as [S'|[k ->]];
      [apply (step_primary_key S' K) | exact K].
  - destruct S as [event ans w0|k w0|k w0].
    + apply handle_covered, C.
    + apply run_job_covered; assumption.
    + apply lose_job_covered, C.
Qed.

Lemma covered_job_finds_row (w : World) (k : nat) (j : Job)
    (user : str) (time : datetime) (content : str) :
  covered w ->
  nth_error (jobs w) k = Some j -> args j = (user, time, content) ->
  exists r, find (matches_unsent user time content) (reminders w) = Some r.
Proof.
  intros C J A. specialize (C user time content). unfold pending, unsent in C.
  assert (P : (1 <= length (filter (job_for user time content) (jobs w)))%nat).
  { apply nth_error_In in J.
    assert (I : In j (filter (job_for user time content) (jobs w)))
      by (apply filter_In; split; [exact J | apply job_for_fields, A]).
    destruct (filter _ (jobs w)); [contradiction | cbn; lia]. }
  rewrite find_is_first_filtered.
  destruct (filter _ (reminders w)) as [|r rs]; [cbn in C; lia|].
  exists r. reflexivity.
Qed.

(** X10. While the program runs, every pending job has an unsent row
    waiting for it.  From a world with unique keys in which, for every user,
    time and content, no more jobs are pending than rows are unsent (the
    empty world, or the world after a restart, which has rows and no jobs),
    requests, job runs and job losses lead only to such worlds; so a job
    that runs always finds a row to mark, and marks one that no other
    pending job needs. *)
Theorem pending_jobs_have_unsent_rows (w w' : World) :
  program_run w w' ->
  primary_key (reminders w) ->
  covered w ->
  primary_key (reminders w')
  /\ covered w'
  /\ forall k j user time content,
       nth_error (jobs w') k = Some j -> args j = (user, time, content) ->
       exists r,
         find (matches_unsent user time content) (reminders w') = Some r
         /\ world_of (run_job k w') =
            mkWorld (mark_sent (id r) (reminders w')) (remove_nth k (jobs w'))
              (files w')
              (trace w' ++ [ PushMessage user (reminder_text time content);
                             QueryFirst user time content;
                             UpdateCommit (id r) ])
         /\ covered (world_of (run_job k w')).
Proof.
  intros HR. induction HR as [w|w w1 w2 S HR IH]; intros K C.
  - split; [exact K|]. split; [exact C|].
    intros k j user time content J A.
    destruct (covered_job_finds_row k C J A) as [r F].
    exists r. split; [exact F|]. split.
    + rewrite (run_job_some _ _ J A).
      rewrite (send_reminder_found user time content
                 (mkWorld (reminders w) (remove_nth k (jobs w)) (files w) (trace w))
                 F).
      reflexivity.
    + apply run_job_covered; assumption.
  - destruct (program_step_keeps S (conj K C)) as [K1 C1]. apply (IH K1 C1).
Qed.

Lemma program_run_to_bob : program_run empty_world bob_world.
Proof.
  apply program_then with (w' := bob_world); [apply program_webhook|].
  apply program_here.
Defined.

Lemma pending_jobs_have_unsent_rows_witness :
  exists r,
    find (matches_unsent (lit "U1") bob_time (lit "Meeting with Bob"))
      (reminders bob_world) = Some r
    /\ world_of (run_job 0 bob_world) =
       mkWorld (mark_sent (id r) (reminders bob_world))
         (remove_nth 0 (jobs bob_world)) (files bob_world)
         (trace bob_world ++
            [ PushMessage (lit "U1")
                (reminder_text bob_time (lit "Meeting with Bob"));
              QueryFirst (lit "U1") bob_time (lit "Meeting with Bob");
              UpdateCommit (id r) ])
    /\ covered (world_of (run_job 0 bob_world)).
Proof.
  assert (K : primary_key (reminders empty_world)) by constructor.
  assert (C : covered empty_world) by (intros u t c; apply Nat.le_refl).
  destruct (@pending_jobs_have_unsent_rows empty_world bob_world
              program_run_to_bob K C) as (_ & _ & H).
  apply (H 0%nat (mkJob bob_time (lit "U1", bob_time, lit "Meeting with Bob")));
    reflexivity.
Defined.

(** ** From the request to the delivery *)

Lemma strptime_fields (s : str) (dt : datetime) :
  strptime s = Some dt ->
  make_datetime (year dt) (month dt) (day dt) (hour dt) (minute dt) 0 0 = Some dt.
Proof.
  intros P. destruct (strptime_first_match _ P) as (H & M & Y & m & d & _ & V).
  pose proof V as V'. unfold make_datetime in V'.
  destruct (_ && _) in V'; [|discriminate V'].
  injection V' as <-. exact V.
Qed.

(** X11. Parsing and rendering agree on the times the handler accepts:
    whatever text [strptime] read a time from, the text [strftime] renders
    for that time is read back as the same time, from the year 1000 on.
    (Below, [strftime] writes the year with fewer than the four digits
    [strptime] asks for.) *)
Theorem accepted_time_renders_and_parses_back (s : str) (dt : datetime) :
  strptime s = Some dt ->
  1000 <= year dt ->
  strptime (strftime dt) = Some dt.
Proof.
  intros P B. apply (strptime_strftime _ _ _ _ _ (strptime_fields _ P) B).
Qed.

Lemma accepted_time_witness :
  strptime (strftime (mkDatetime 2024 6 5 5 3 0 0))
  = Some (mkDatetime 2024 6 5 5 3 0 0).
Proof.
  apply (@accepted_time_renders_and_parses_back (lit "5:3 2024-6- 5")
           (mkDatetime 2024 6 5 5 3 0 0)).
  - reflexivity.
  - cbn. lia.
Defined.

Lemma new_row_matches (event : MessageEvent) (dt : datetime) (c : str) (w : World) :
  matches_unsent (source_user_id event) dt c (new_row event dt c w) = true.
Proof.
  apply matches_unsent_fields. repeat split.
Qed.

Lemma nth_error_last {A} (l : list A) (a : A) :
  nth_error (l ++ [a]) (length l) = Some a.
Proof.
  rewrite nth_error_app2 by apply Nat.le_refl. rewrite Nat.sub_diag. reflexivity.
Qed.

Lemma remove_nth_last {A} (l : list A) (a : A) :
  remove_nth (length l) (l ++ [a]) = l.
Proof. rewrite remove_nth_split. apply app_nil_r. Qed.

(** X12. A request and its job, end to end.  In a table with unique keys
    that holds no unsent row for the same user, time and content, an accepted
    request followed by the run of the job it has added leaves the table with
    the one new row, marked as sent, and the scheduler as it was before the
    request; the run's push carries the content and the time with hour,
    minute, month and day in two digits and the year without leading zeros,
    so in fewer than four digits for a year below 1000. *)
Theorem request_then_its_job
    (event : MessageEvent) (ans : Answers) (w : World)
    (t c : str) (dt : datetime) :
  split newline (strip (completion_content ans)) = [t; c] ->
  strptime t = Some dt ->
  primary_key (reminders w) ->
  Forall (fun r => matches_unsent (source_user_id event) dt c r = false)
    (reminders w) ->
  let w1 := world_of (handle_audio_message event ans w) in
  let w2 := world_of (run_job (length (jobs w)) w1) in
  reminders w2 =
    reminders w ++
      [mkReminder (next_id (reminders w)) (source_user_id event) dt c true]
  /\ jobs w2 = jobs w
  /\ new_calls w1 w2 =
     [ PushMessage (source_user_id event)
         (lit "Reminder: " ++
          (pad2 (hour dt) ++ lit ":" ++ pad2 (minute dt) ++ lit " " ++
           year_text (year dt) ++ lit "-" ++ pad2 (month dt) ++ lit "-" ++
           pad2 (day dt)) ++
          lit " - " ++ c);
       QueryFirst (source_user_id event) dt c;
       UpdateCommit (next_id (reminders w)) ].
Proof.
  intros E P K Fresh. cbv zeta.
  rewrite (handle_accepted event ans w E P). cbn [world_of].
  set (w1 := mkWorld _ _ _ _).
  assert (J : nth_error (jobs w1) (length (jobs w)) = Some (new_job event dt c))
    by apply nth_error_last.
  rewrite (run_job_some _ _ J eq_refl).
  assert (F : find (matches_unsent (source_user_id event) dt c)
                (reminders w ++ [new_row event dt c w])
              = Some (new_row event dt c w))
    by (apply find_app_first; [exact Fresh | apply new_row_matches]).
  rewrite (send_reminder_found (source_user_id event) dt c
             (mkWorld (reminders w1) (remove_nth (length (jobs w)) (jobs w1))
                (files w1) (trace w1)) F).
  cbn [world_of reminders jobs w1].
  assert (K1 : primary_key (reminders w ++ [new_row event dt c w]))
    by (apply primary_key_insert, K).
  rewrite (mark_sent_one _ _ _ K1), remove_nth_last.
  split; [reflexivity|]. split; [reflexivity|].
  unfold new_calls. cbn [trace].
  rewrite skipn_app, skipn_all, Nat.sub_diag. reflexivity.
Qed.

Lemma request_then_its_job_witness :
  let w1 := world_of (handle_audio_message bob_event new_era_answers empty_world) in
  let w2 := world_of (run_job 0 w1) in
  reminders w2 = [mkReminder 1 (lit "U1") new_era_time (lit "New era") true]
  /\ jobs w2 = []
  /\ new_calls w1 w2 =
     [ PushMessage (lit "U1") (lit "Reminder: 00:00 1-01-01 - New era");
       QueryFirst (lit "U1") new_era_time (lit "New era");
       UpdateCommit 1 ].
Proof.
  apply (@request_then_its_job bob_event new_era_answers empty_world
           (lit "00:00 0001-01-01") (lit "New era") new_era_time).
  - reflexivity.
  - reflexivity.
  - constructor.
  - constructor.
Defined.

(** ** The webhook route *)

Lemma handle_events_app (a b : list WebhookEvent) (w : World) :
  handle_events (a ++ b) w =
  match handle_events a w with
  | Returned _ w' => handle_events b w'
  | Raised e w' => Raised e w'
  end.
Proof.
  revert w. induction a as [|[event ans|] a IH]; intros w; cbn [app handle_events].
  - reflexivity.
  - unfold bind. destruct (handle_audio_message event ans w) as [[] w'|e w'].
    + apply IH.
    + reflexivity.
  - apply IH.
Qed.

Lemma handle_events_audio_only (evs : list WebhookEvent) (w : World) :
  handle_events (filter is_audio evs) w = handle_events evs w.
Proof.
  revert w. induction evs as [|[event ans|] evs IH]; intros w;
    cbn [filter is_audio handle_events].
  - reflexivity.
  - unfold bind. destruct (handle_audio_message event ans w) as [[] w'|e w'];
      [apply IH | reflexivity].
  - apply IH.
Qed.

Lemma handle_events_none_audio (evs : list WebhookEvent) (w : World) :
  forallb (fun e => negb (is_audio e)) evs = true ->
  handle_events evs w = Returned tt w.
Proof.
  induction evs as [|[event ans|] evs IH]; cbn [forallb is_audio negb handle_events andb].
  - reflexivity.
  - discriminate.
  - exact IH.
Qed.

(** X13. Events that are not audio messages are passed over: the route
    answers and leaves the world as if the request held its audio events
    only, and a signed request of events none of which is an audio message
    gets [OK] with no reply to anyone and no change at all. *)
Theorem other_events_are_passed_over
    (header : option str) (fits : bool) (evs : list WebhookEvent) (w : World) :
  callback (mkRequest header fits evs) w
  = callback (mkRequest header fits (filter is_audio evs)) w
  /\ callback (mkRequest header fits (filter (fun e => negb (is_audio e)) evs)) w =
     match header with
     | None => (KeyError, w)
     | Some _ => if fits then (Body (lit "OK"), w) else (Abort 400, w)
     end.
Proof.
  unfold callback. cbn [x_line_signature signature_fits events]. split.
  - rewrite handle_events_audio_only. reflexivity.
  - rewrite handle_events_none_audio; [reflexivity|].
    apply forallb_forall. intros e I. apply filter_In in I. apply I.
Qed.

(** X14. The events of one request are handled in order, each in the world
    the one before has left: when the first events of a signed request
    return, the route goes on as if the remaining events had come in a
    request of their own. *)
Theorem events_are_handled_in_sequence
    (signature : str) (first rest : list WebhookEvent) (w w1 : World) :
  handle_events first w = Returned tt w1 ->
  callback (mkRequest (Some signature) true (first ++ rest)) w
  = callback (mkRequest (Some signature) true rest) w1.
Proof.
  intros F. unfold callback. cbn [x_line_signature signature_fits events].
  rewrite handle_events_app, F. reflexivity.
Qed.

Lemma events_are_handled_in_sequence_witness :
  callback (mkRequest (Some (lit "sig")) true
              ([OtherEvent; AudioMessageEvent bob_event bob_answers] ++
               [AudioMessageEvent bob_event chatty_answers])) empty_world
  = callback (mkRequest (Some (lit "sig")) true
                [AudioMessageEvent bob_event chatty_answers]) bob_world.
Proof.
  apply (@events_are_handled_in_sequence (lit "sig")
           [OtherEvent; AudioMessageEvent bob_event bob_answers]
           [AudioMessageEvent bob_event chatty_answers] empty_world bob_world).
  reflexivity.
Defined.

(** X15. An exception of the handler ends the whole request: [callback]
    catches the signature error only, so when the handler raises for one
    event, the exception leaves [callback], the events after it are never
    handled, and what the events before it have stored stays stored. *)
Theorem a_raise_drops_the_later_events
    (signature : str) (first later : list WebhookEvent)
    (event : MessageEvent) (ans : Answers) (w w1 w2 : World) (e : Exn) :
  handle_events first w = Returned tt w1 ->
  handle_audio_message event ans w1 = Raised e w2 ->
  callback (mkRequest (Some signature) true
              (first ++ AudioMessageEvent event ans :: later)) w
  = (Uncaught e, w2).
Proof.
  intros F R. unfold callback. cbn [x_line_signature signature_fits events].
  rewrite handle_events_app, F.
  cbn [handle_events]. unfold bind. rewrite R. reflexivity.
Qed.

Lemma a_raise_drops_the_later_events_witness :
  exists w2,
    callback (mkRequest (Some (lit "sig")) true
                ([AudioMessageEvent bob_event bob_answers] ++
                 AudioMessageEvent bob_event vague_answers ::
                 [AudioMessageEvent bob_event chatty_answers])) empty_world
    = (Uncaught ValueError, w2)
    /\ reminders w2 = reminders bob_world
    /\ files w2 = [(lit "/tmp/tmp2.m4a", [1; 2; 3]%N)].
Proof.
  eexists. split.
  - apply (@a_raise_drops_the_later_events (lit "sig")
             [AudioMessageEvent bob_event bob_answers]
             [AudioMessageEvent bob_event chatty_answers]
             bob_event vague_answers empty_world bob_world).
    + reflexivity.
    + vm_compute. reflexivity.
  - split; reflexivity.
Defined.

(** ** The listening port *)

Example int_of_str_accepts :
  map int_of_str
    [ lit "8080"; lit " 8080 "; [9%N] ++ lit "8080" ++ [newline]; lit "+8080";
      lit "-1"; lit "0080"; lit "8_080"; [65304; 65296; 65304; 65296]%N;
      [160%N] ++ lit "5"; [12288%N] ++ lit "5"; [1637%N] ]
  = [ Some 8080; Some 8080; Some 8080; Some 8080; Some (-1); Some 80; Some 8080;
      Some 8080; Some 5; Some 5; Some 5 ].
Proof. vm_compute. reflexivity. Qed.

Example int_of_str_rejects :
  map int_of_str
    [ lit "_8080"; lit "8080_"; lit "8__0"; []; lit "  "; lit "80 80";
      lit "0x50"; [28%N] ++ lit "5"; lit "5" ++ [31%N]; lit "5.0"; lit "1e3";
      lit "+ 5"; lit "--5"; lit "+"; repeat 49%N 4301 ]
  = repeat None 15.
Proof. vm_compute. reflexivity. Qed.

Example int_of_str_longest : int_of_str (repeat 48%N 4299 ++ [49%N]) = Some 1.
Proof. vm_compute. reflexivity. Qed.

Lemma digit_char_facts (d : Z) :
  0 <= d <= 9 ->
  to_ascii (digit_char d) = digit_char d
  /\ ascii_space (digit_char d) = false
  /\ ascii_digit (digit_char d) = Some d
  /\ (digit_char d =? 43)%N = false
  /\ (digit_char d =? 45)%N = false
  /\ (digit_char d =? 95)%N = false.
Proof. intros B. each_value d 0 9; repeat split. Qed.

Lemma scan_all_digits (ds : list Z) (p : bool) (v : Z) (n : nat) :
  Forall (fun d => 0 <= d <= 9) ds ->
  scan_digits (map digit_char ds) p v n
  = Some (fold_left (fun acc d => 10 * acc + d) ds v, (n + length ds)%nat,
          match ds with [] => p | _ :: _ => false end, []).
Proof.
  intros F. revert p v n.
  induction F as [|d ds B _ IH]; intros p v n; cbn [map scan_digits fold_left length].
  - rewrite Nat.add_0_r. reflexivity.
  - destruct (digit_char_facts B) as (_ & _ & -> & _).
    rewrite IH. rewrite Nat.add_succ_r. cbn [Nat.add].
    destruct ds; reflexivity.
Qed.

Lemma map_to_ascii_digits (ds : list Z) :
  Forall (fun d => 0 <= d <= 9) ds ->
  map to_ascii (map digit_char ds) = map digit_char ds.
Proof.
  induction 1 as [|d ds B _ IH]; cbn [map]; [reflexivity|].
  destruct (digit_char_facts B) as (-> & _). rewrite IH. reflexivity.
Qed.

Lemma int_of_digits (ds : list Z) :
  ds <> [] -> Forall (fun d => 0 <= d <= 9) ds ->
  (length ds <= max_str_digits)%nat ->
  int_of_str (map digit_char ds) = Some (number_of ds).
Proof.
  intros NE F L. unfold int_of_str. rewrite (map_to_ascii_digits F).
  destruct ds as [|d ds]; [contradiction|].
  pose proof (Forall_inv F) as B.
  destruct (digit_char_facts B) as (_ & S & _ & P & M & U).
  cbn [map skip_spaces]. rewrite S, P, M, U.
  change (digit_char d :: map digit_char ds) with (map digit_char (d :: ds)).
  rewrite (scan_all_digits false 0 0 F). cbn [Nat.add Nat.eqb length].
  apply Nat.ltb_ge in L. cbn [length] in L. rewrite L.
  cbn [skip_spaces]. unfold number_of. f_equal. lia.
Qed.

(** X16. The value of [port], which the program hands to [app.run], is the
    number [PORT] spells: when the variable is set to ASCII digits, at least
    one and at most 4300, [int] reads the decimal number they spell, leading
    zeros allowed.  (What the server does with that number, for 0 or for a
    number above 65535, is not part of this.) *)
Theorem port_is_the_number_in_PORT
    (environ : list (str * str)) (ds : list Z) :
  environ_get environ (lit "PORT") = Some (map digit_char ds) ->
  ds <> [] ->
  Forall (fun d => 0 <= d <= 9) ds ->
  (length ds <= 4300)%nat ->
  port environ = Some (number_of ds).
Proof.
  intros E NE F L. unfold port. rewrite E. apply int_of_digits; assumption.
Qed.

Lemma port_is_the_number_in_PORT_witness :
  port [(lit "HOME", lit "/root"); (lit "PORT", lit "8080")] = Some 8080.
Proof.
  apply (@port_is_the_number_in_PORT
           [(lit "HOME", lit "/root"); (lit "PORT", lit "8080")] [8; 0; 8; 0]).
  - reflexivity.
  - discriminate.
  - repeat constructor; lia.
  - cbn. lia.
Defined.

Lemma to_ascii_keeps_non_digits (c : char) :
  decimal c = None -> ascii_digit (to_ascii c) = None.
Proof.
  intros D. unfold to_ascii. destruct (c <? 127)%N eqn:A.
  - unfold ascii_digit. destruct (_ && _) eqn:R; [|reflexivity].
    exfalso. apply andb_true_iff in R. rewrite !N.leb_le in R.
    apply (@ascii_digit_is_decimal c); [lia | exact D].
  - destruct (isspace c); [reflexivity|]. rewrite D. reflexivity.
Qed.

Lemma skip_spaces_keeps (P : char -> Prop) (s : str) :
  Forall P s -> Forall P (skip_spaces s).
Proof.
  induction 1 as [|c s Pc F IH]; cbn [skip_spaces]; [constructor|].
  destruct (ascii_space c); [exact IH | constructor; assumption].
Qed.

Lemma scan_without_digits (s : str) (p : bool) (v : Z) (n : nat)
    (v' : Z) (n' : nat) (u : bool) (r : str) :
  Forall (fun c => ascii_digit c = None) s ->
  scan_digits s p v n = Some (v', n', u, r) -> n' = n.
Proof.
  intros F. revert p. induction F as [|c s D _ IH]; intros p; cbn [scan_digits].
  - intros E. injection E as _ <- _ _. reflexivity.
  - rewrite D. destruct (c =? 95)%N.
    + destruct p; [discriminate | apply IH].
    + intros E. injection E as _ <- _ _. reflexivity.
Qed.

Lemma int_without_digits (s : str) :
  Forall (fun c => decimal c = None) s -> int_of_str s = None.
Proof.
  intros F.
  assert (F1 : Forall (fun c => ascii_digit c = None) (skip_spaces (map to_ascii s))).
  { apply skip_spaces_keeps, Forall_map.
    apply (Forall_impl _ (P := fun c => decimal c = None)); [|exact F].
    apply to_ascii_keeps_non_digits. }
  unfold int_of_str. set (s1 := skip_spaces (map to_ascii s)) in *.
  assert (G : forall sign s2,
            Forall (fun c => ascii_digit c = None) s2 ->
            match s2 with
            | [] => None
            | c :: _ =>
                if (c =? 95)%N then None
                else
                  match scan_digits s2 false 0 0 with
                  | None => None
                  | Some (value, digits, last_underscore, s3) =>
                      if last_underscore then None
                      else if Nat.eqb digits 0 then None
                      else if Nat.ltb max_str_digits digits then None
                      else match skip_spaces s3 with
                           | [] => Some (sign * value)
                           | _ :: _ => None
                           end
                  end
            end = None).
  { intros sign s2 F2. destruct s2 as [|c s2]; [reflexivity|].
    destruct (c =? 95)%N; [reflexivity|].
    destruct (scan_digits (c :: s2) false 0 0) as [[[[v' n'] u] r]|] eqn:E;
      [|reflexivity].
    rewrite (@scan_without_digits _ _ _ _ _ _ _ _ F2 E).
    destruct u; reflexivity. }
  destruct s1 as [|c r]; [reflexivity|].
  destruct (c =? 43)%N; [exact (G 1 r (Forall_inv_tail F1))|].
  destruct (c =? 45)%N; [exact (G (-1) r (Forall_inv_tail F1))|].
  exact (G 1 (c :: r) F1).
Qed.

(** X17. A [PORT] without a digit stops the program at its start: when the
    variable is set and none of its characters is a decimal digit (it is
    empty, blank, or a word), reading the port raises [ValueError]; the
    default of 5000 is used only when the variable is not set at all. *)
Theorem port_without_digits_fails (environ : list (str * str)) (s : str) :
  environ_get environ (lit "PORT") = Some s ->
  Forall (fun c => decimal c = None) s ->
  port environ = None.
Proof.
  intros E F. unfold port. rewrite E. apply int_without_digits, F.
Qed.

Lemma port_without_digits_witness :
  port [(lit "PORT", [])] = None /\ port [(lit "PORT", lit " http ")] = None.
Proof.
  split.
  - apply (@port_without_digits_fails [(lit "PORT", [])] []);
      [reflexivity | constructor].
  - apply (@port_without_digits_fails [(lit "PORT", lit " http ")] (lit " http "));
      [reflexivity | repeat constructor].
Defined.

Lemma port_default (environ : list (str * str)) :
  environ_get environ (lit "PORT") = None -> port environ = Some 5000.
Proof. intros E. unfold port. rewrite E. reflexivity. Qed.

(** ** What a delivery leaves alone *)

Lemma nth_error_elsewhere {A} (l1 l2 : list A) (a b : A) (i : nat) :
  i <> length l1 ->
  nth_error (l1 ++ a :: l2) i = nth_error (l1 ++ b :: l2) i.
Proof.
  intros NE. destruct (Nat.lt_ge_cases i (length l1)) as [L|G].
  - rewrite !nth_error_app1 by exact L. reflexivity.
  - rewrite !nth_error_app2 by exact G.
    destruct (i - length l1)%nat as [|n] eqn:D; [lia | reflexivity].
Qed.

(** X18. A delivery marks no reminder but its own: in a table with unique
    keys, [send_reminder] leaves every row whose user, time or content
    differs from its arguments exactly as it was, and it leaves the scheduler
    and the files alone. *)
Theorem delivery_marks_no_other_reminder
    (user : str) (time : datetime) (content : str) (w : World) :
  primary_key (reminders w) ->
  let w' := world_of (send_reminder user time content w) in
  jobs w' = jobs w
  /\ files w' = files w
  /\ forall i r,
       nth_error (reminders w) i = Some r ->
       (user_id r, event_time r, event_content r) <> (user, time, content) ->
       nth_error (reminders w') i = Some r.
Proof.
  intros K. cbv zeta.
  destruct (find (matches_unsent user time content) (reminders w)) as [r0|] eqn:F.
  - rewrite (send_reminder_found _ _ _ _ F). cbn [world_of jobs files reminders].
    split; [reflexivity|]. split; [reflexivity|].
    intros i r E NE.
    destruct (find_first _ _ F) as (l1 & l2 & El & R & _).
    rewrite El in K, E |- *. rewrite (mark_sent_one _ _ _ K).
    destruct (Nat.eq_dec i (length l1)) as [->|D].
    + rewrite nth_error_app2, Nat.sub_diag in E by apply Nat.le_refl.
      cbn in E. injection E as <-.
      apply matches_unsent_fields in R. destruct R as (<- & <- & <- & _).
      exfalso. apply NE. reflexivity.
    + rewrite <- E. apply nth_error_elsewhere, D.
  - rewrite (send_reminder_none _ _ _ _ F). cbn [world_of jobs files reminders].
    split; [reflexivity|]. split; [reflexivity|]. intros i r E _. exact E.
Qed.

Lemma delivery_marks_no_other_reminder_witness :
  let w' := world_of (send_reminder (lit "U2") bob_time (lit "Meeting with Bob")
                        bob_world) in
  jobs w' = jobs bob_world
  /\ files w' = files bob_world
  /\ nth_error (reminders w') 0
     = Some (mkReminder 1 (lit "U1") bob_time (lit "Meeting with Bob") false).
Proof.
  destruct (@delivery_marks_no_other_reminder (lit "U2") bob_time
              (lit "Meeting with Bob") bob_world) as (J & Fl & R).
  - vm_compute. repeat constructor. intros [].
  - split; [exact J|]. split; [exact Fl|].
    apply (R 0%nat (mkReminder 1 (lit "U1") bob_time (lit "Meeting with Bob") false)).
    + reflexivity.
    + intros E. discriminate E.
Defined.
